(* Verification of the proxy-rotated job scheduler of MediaTranscriber:
   WebScrapingJobLauncher, src/main.py lines 170-233.

   The launcher is embedded as a state machine whose control points are the
   loop heads of the source: the [while proxy_list] test, the
   [for job in list(incomplete_jobs)] sweep and the
   [for future in as_completed(futures)] round.  Everything the launcher
   cannot decide itself (lock state, result and completion time of an
   attempt, whether a write of the proxy file fails) is read from a
   [World]. *)

From stdpp Require Import base list strings gmap sorting.

(* ===================================================================== *)
(** * Data model *)
(* ===================================================================== *)

(* Modelled from the spec: WebScraper.WebScrapingUtility.JobStatus is not
   among the sources; the spec gives the outcome of an attempt as the
   tagged variant Success | ConnectionError | GenericError, and main.py
   names the three members below. *)
Inductive JobStatus := Success | PageConnectionError | GenericError.

#[global] Instance JobStatus_eq_dec : EqDecision JobStatus.
Proof. solve_decision. Defined.

(* A proxy is a dict read from the proxy file.  main.py reads the keys
   'ip' and 'port'; [rest] stands for the other keys (the age metadata),
   which [proxy in proxy_list] and [proxy_list.remove(proxy)] compare too. *)
Record Proxy := mkProxy { ip : string; port : string; rest : string }.

#[global] Instance Proxy_eq_dec : EqDecision Proxy.
Proof. solve_decision. Defined.

(* proxy_str = f"{proxy['ip']}:{proxy['port']}"   (line 206) *)
Definition proxy_str (proxy : Proxy) : string :=
  ip proxy +:+ ":" +:+ port proxy.

(* A job is a reference to one of the objects made by GenerateJobsFromVideo;
   the k-th object of video_jobs is referred to by k.  The mutable field
   IsCompleted of these objects lives in the state, indexed by reference. *)
Abbreviation Job := nat (only parsing).

(* One future of the dict built at line 200: the position of its proxy in
   the snapshot, the proxy, and what future.result() gives. *)
Record Future := mkFuture { slot : nat; proxy_of : Proxy; result : JobStatus }.

(* What the launcher does to the outside. *)
Inductive Effect :=
| Upload (job : Job) (proxy : Proxy)   (* executor.submit(uploadFunction, job, proxy, ..) *)
| SetCompleted (job : Job)             (* job.IsCompleted = True *)
| Persisted (data : list Proxy)        (* WriteJson(PROXY_FILE, data), written *)
| PersistFailed (data : list Proxy)    (* WriteJson(PROXY_FILE, data), raised *)
| Sleep.                               (* time.sleep(2) *)

#[global] Instance Effect_eq_dec : EqDecision Effect.
Proof. solve_decision. Defined.

Inductive Control :=
| AtWhile                                                    (* line 192 *)
| InSweep (todo : list Job)                                  (* line 193 *)
| InRound (job : Job) (pending : list Future) (todo : list Job)  (* line 202 *)
| Returned (all_done : bool)                                 (* lines 190, 233 *)
| Raised.                  (* an exception has left WebScrapingJobLauncher *)

Record State := mkState {
  proxy_list : list Proxy;            (* the in-memory pool *)
  proxy_failures : gmap string nat;   (* line 182 *)
  PROXY_FILE : list Proxy;            (* contents of the proxy file *)
  IsCompleted : list bool;            (* job.IsCompleted, by job reference *)
  incomplete_jobs : list Job;         (* line 186 *)
  sweeps : nat;                       (* passes of the while loop finished *)
  trace : list Effect;
  pc : Control }.

(* The first argument of each field is the number of the pass of the while
   loop, the second the job: a job has at most one round in a pass. *)
Record World := mkWorld {
  (* job.Lock.locked() when the sweep reaches the job *)
  Lock_locked : nat → Job → bool;
  (* result of uploadFunction(job, proxy, headless_Mode) for the proxy at
     the given position of the snapshot *)
  uploadFunction : nat → Job → nat → Proxy → JobStatus;
  (* when the future at the given position completes *)
  finished_at : nat → Job → nat → nat;
  (* whether the write of the proxy file made while handling that future
     succeeds *)
  write_succeeds : nat → Job → nat → bool }.

Definition MAX_RETRIES : nat := 3.

(* ===================================================================== *)
(** * Operations *)
(* ===================================================================== *)

Definition set_proxy_list (l : list Proxy) (st : State) : State :=
  mkState l (proxy_failures st) (PROXY_FILE st) (IsCompleted st)
          (incomplete_jobs st) (sweeps st) (trace st) (pc st).

Definition set_proxy_failures (m : gmap string nat) (st : State) : State :=
  mkState (proxy_list st) m (PROXY_FILE st) (IsCompleted st)
          (incomplete_jobs st) (sweeps st) (trace st) (pc st).

Definition set_PROXY_FILE (l : list Proxy) (st : State) : State :=
  mkState (proxy_list st) (proxy_failures st) l (IsCompleted st)
          (incomplete_jobs st) (sweeps st) (trace st) (pc st).

Definition set_IsCompleted (l : list bool) (st : State) : State :=
  mkState (proxy_list st) (proxy_failures st) (PROXY_FILE st) l
          (incomplete_jobs st) (sweeps st) (trace st) (pc st).

Definition set_incomplete_jobs (l : list Job) (st : State) : State :=
  mkState (proxy_list st) (proxy_failures st) (PROXY_FILE st) (IsCompleted st)
          l (sweeps st) (trace st) (pc st).

Definition set_sweeps (n : nat) (st : State) : State :=
  mkState (proxy_list st) (proxy_failures st) (PROXY_FILE st) (IsCompleted st)
          (incomplete_jobs st) n (trace st) (pc st).

Definition emit (es : list Effect) (st : State) : State :=
  mkState (proxy_list st) (proxy_failures st) (PROXY_FILE st) (IsCompleted st)
          (incomplete_jobs st) (sweeps st) (trace st ++ es) (pc st).

Definition goto (c : Control) (st : State) : State :=
  mkState (proxy_list st) (proxy_failures st) (PROXY_FILE st) (IsCompleted st)
          (incomplete_jobs st) (sweeps st) (trace st) c.

(* list.remove(x) for an x that is in the list: the first occurrence goes.
   Both calls in the launcher are guarded by a membership test. *)
Fixpoint remove_first {A} `{EqDecision A} (x : A) (l : list A) : list A :=
  match l with
  | [] => []
  | y :: l' => if decide (x = y) then l' else y :: remove_first x l'
  end.

(* Modelled from the spec: Utility.FileUtil.WriteJson is not among the
   sources.  WriteJson(PROXY_FILE, proxy_list) durably writes the full current
   pool, overwriting prior contents.  Whether a call succeeds is up to the
   world ([ok]); a call that fails raises, and leaves the file as it was.
   The result is [inl] of the state after the call, or [inr] of the state in
   which the exception is raised. *)
Definition WriteJson (ok : bool) (st : State) : State + State :=
  if ok
  then inl (emit [Persisted (proxy_list st)] (set_PROXY_FILE (proxy_list st) st))
  else inr (emit [PersistFailed (proxy_list st)] st).

(* The launcher has no try/except: after a call that returned it goes on at
   [c]; an exception leaves the launcher. *)
Definition then_goto (c : Control) (r : State + State) : State :=
  match r with
  | inl st => goto c st
  | inr st => goto Raised st
  end.

(* job.IsCompleted *)
Definition is_completed (st : State) (job : Job) : bool :=
  default false (IsCompleted st !! job).

(* video_jobs: the references to all job objects *)
Definition video_jobs (st : State) : list Job := seq 0 (length (IsCompleted st)).

(* futures = {executor.submit(uploadFunction, job, proxy, headless_Mode): proxy
              for proxy in proxy_list}                          (line 200) *)
Definition submit (w : World) (n : nat) (job : Job) (proxies : list Proxy)
  : list Future :=
  imap (λ i proxy, mkFuture i proxy (uploadFunction w n job i proxy)) proxies.

(* as_completed(futures): the futures in the order in which they finish;
   futures finishing at the same time come in submission order. *)
Fixpoint insert_by (t : nat → nat) (f : Future) (fs : list Future) : list Future :=
  match fs with
  | [] => [f]
  | g :: fs' =>
      if decide (t (slot f) ≤ t (slot g)) then f :: g :: fs'
      else g :: insert_by t f fs'
  end.

Definition as_completed (t : nat → nat) (fs : list Future) : list Future :=
  foldr (insert_by t) [] fs.

(* The body of the loop over as_completed, lines 203-226, for the future
   [f]; [pending] are the futures that finish after it. *)
Definition on_outcome (w : World) (job : Job) (f : Future)
    (pending : list Future) (todo : list Job) (st : State) : State :=
  let proxy := proxy_of f in
  let key := proxy_str proxy in
  let ok := write_succeeds w (sweeps st) job (slot f) in
  match result f with
  | Success =>
      let st := set_IsCompleted (<[job := true]> (IsCompleted st))
                  (emit [SetCompleted job] st) in
      let st := if decide (job ∈ incomplete_jobs st)
                then set_incomplete_jobs (remove_first job (incomplete_jobs st)) st
                else st in
      goto (InSweep todo) st                                   (* break *)
  | PageConnectionError =>
      if decide (proxy ∈ proxy_list st)
      then then_goto (InRound job pending todo)
             (WriteJson ok
                (set_proxy_list (remove_first proxy (proxy_list st)) st))
      else goto (InRound job pending todo) st
  | GenericError =>
      let n := default 0 (proxy_failures st !! key) + 1 in
      let st := set_proxy_failures (<[key := n]> (proxy_failures st)) st in
      if decide (MAX_RETRIES ≤ n)
      then
        let st := if decide (proxy ∈ proxy_list st)
                  then set_proxy_list (remove_first proxy (proxy_list st)) st
                  else st in
        let st := set_proxy_failures (delete key (proxy_failures st)) st in
        then_goto (InRound job pending todo) (WriteJson ok st)
      else goto (InRound job pending todo) st
  end.

(* One step of the launcher from each control point. *)
Definition step (w : World) (st : State) : State :=
  match pc st with
  | Returned _ | Raised => st
  | AtWhile =>
      match proxy_list st with
      | [] => goto (Returned (forallb (is_completed st) (video_jobs st))) st
      | _ :: _ => goto (InSweep (incomplete_jobs st)) st
      end
  | InSweep [] =>
      goto AtWhile (set_sweeps (S (sweeps st)) (emit [Sleep] st))
  | InSweep (job :: todo) =>
      if Lock_locked w (sweeps st) job then goto (InSweep todo) st
      else
        let futures := submit w (sweeps st) job (proxy_list st) in
        goto (InRound job (as_completed (finished_at w (sweeps st) job) futures) todo)
             (emit (Upload job <$> proxy_list st) st)
  | InRound job [] todo => goto (InSweep todo) st
  | InRound job (f :: pending) todo => on_outcome w job f pending todo st
  end.

Definition run (w : World) (n : nat) (st : State) : State :=
  Nat.iter n (step w) st.

Arguments run : simpl never.

(* os.path.isfile(job.GetHTMLOutputFilePath()) when the launcher starts *)
Definition isfile (outputs : list bool) (job : Job) : bool :=
  default false (outputs !! job).

(* Lines 182-190.  [proxies] is what getProxyList returns, [file] what the
   proxy file holds, and [outputs] tells for each job made by
   GenerateJobsFromVideo whether its output file exists.
   Modelled from the spec: the job class is not among the sources; a job's
   completed flag starts false and only goes from false to true. *)
Definition Init (proxies file : list Proxy) (outputs : list bool) : State :=
  let jobs := seq 0 (length outputs) in
  let incomplete := filter (λ job, negb (isfile outputs job)) jobs in
  mkState proxies ∅ file (replicate (length outputs) false) incomplete 0 []
          (match incomplete with [] => Returned true | _ :: _ => AtWhile end).

(* How a call of the launcher ends. *)
Inductive Result := Return (all_done : bool) | Raise.

(* The launcher, run for at most [fuel] steps: how it has ended, if it has. *)
Definition WebScrapingJobLauncher (w : World) (fuel : nat)
    (proxies file : list Proxy) (outputs : list bool) : option Result :=
  match pc (run w fuel (Init proxies file outputs)) with
  | Returned b => Some (Return b)
  | Raised => Some Raise
  | _ => None
  end.

(* ===================================================================== *)
(** * Sample runs *)
(* ===================================================================== *)

Definition pA : Proxy := mkProxy "10.0.0.1" "8080" "".
Definition pB : Proxy := mkProxy "10.0.0.2" "3128" "".

(* Proxy A always fails to connect, proxy B always succeeds; futures finish
   in submission order; every write succeeds; no job is ever locked. *)
Definition world_AB : World :=
  mkWorld (λ _ _, false)
          (λ _ _ _ proxy, if decide (proxy = pA) then PageConnectionError else Success)
          (λ _ _ i, i)
          (λ _ _ _, true).

(* Every attempt is a generic error. *)
Definition world_generic : World :=
  mkWorld (λ _ _, false) (λ _ _ _ _, GenericError) (λ _ _ i, i) (λ _ _ _, true).


(* Proxy B answers first and succeeds; proxy A then fails to connect. *)
Definition world_B_first : World :=
  mkWorld (λ _ _, false)
          (λ _ _ _ proxy, if decide (proxy = pA) then PageConnectionError else Success)
          (λ _ _ i, 1 - i)
          (λ _ _ _, true).

(* Proxy B answers first and succeeds; proxy A then returns a generic
   error. *)
Definition world_B_first_generic : World :=
  mkWorld (λ _ _, false)
          (λ _ _ _ proxy, if decide (proxy = pA) then GenericError else Success)
          (λ _ _ i, 1 - i)
          (λ _ _ _, true).


(* Proxy A: generic errors during the first pass of the while loop, success
   afterwards. *)
Definition world_flaky : World :=
  mkWorld (λ _ _, false)
          (λ n _ _ _, if decide (n = 0) then GenericError else Success)
          (λ _ _ i, i)
          (λ _ _ _, true).

(* ===================================================================== *)
(** * Notions used by the statements *)
(* ===================================================================== *)

(* How often job.IsCompleted = True has been executed for [job]. *)
Definition times_marked (st : State) (job : Job) : nat :=
  length (filter (λ e, e = SetCompleted job) (trace st)).

(* A job ended completed: its output was there at the start, or it has been
   marked completed. *)
Definition ended_completed (outputs : list bool) (st : State) (job : Job) : bool :=
  isfile outputs job || is_completed st job.



(* The launcher is still running. *)
Definition running (st : State) : bool :=
  match pc st with
  | Returned _ | Raised => false
  | AtWhile | InSweep _ | InRound _ _ _ => true
  end.

(* What holds at each control point of a run started by [Init]. *)
Definition pc_ok (outputs : list bool) (st : State) : Prop :=
  match pc st with
  | AtWhile => proxy_list st ≠ [] ∨ incomplete_jobs st ≠ []
  | InSweep todo =>
      NoDup todo ∧ todo ⊆ incomplete_jobs st ∧
      (proxy_list st ≠ [] ∨ incomplete_jobs st ≠ [])
  | InRound job pending todo =>
      NoDup (job :: todo) ∧ job :: todo ⊆ incomplete_jobs st ∧
      proxy_of <$> pending ⊆+ proxy_list st
  | Returned b =>
      b = bool_decide (incomplete_jobs st = []) ∧
      b = forallb (ended_completed outputs st) (seq 0 (length outputs))
  | Raised => True
  end.

Record Inv (proxies : list Proxy) (outputs : list bool) (st : State) : Prop := {
  inv_pool : proxy_list st `sublist_of` proxies;
  inv_nodup : NoDup (incomplete_jobs st);
  inv_length : length (IsCompleted st) = length outputs;
  inv_incomplete : ∀ job, job ∈ incomplete_jobs st →
      job < length outputs ∧ isfile outputs job = false ∧
      is_completed st job = false;
  inv_tally : ∀ key v, proxy_failures st !! key = Some v → 0 < v < MAX_RETRIES;
  inv_upload : ∀ job proxy, Upload job proxy ∈ trace st →
      isfile outputs job = false;
  inv_marks : ∀ job, times_marked st job ≤ 1 ∧
      (is_completed st job = false → times_marked st job = 0);
  inv_pc : pc_ok outputs st }.

(* ===================================================================== *)
(** * The callers of the launcher *)
(* ===================================================================== *)

(* What one call of the launcher finds: the world during the call, the
   proxies getProxyList loads, the proxy file and the outputs present. *)
Record Launch := mkLaunch {
  launch_world : World;
  launch_proxies : list Proxy;
  launch_file : list Proxy;
  launch_outputs : list bool }.

Definition launch (fuel : nat) (l : Launch) : option Result :=
  WebScrapingJobLauncher (launch_world l) fuel (launch_proxies l)
    (launch_file l) (launch_outputs l).

(* How the upload loop of a pipeline ends, and after how many calls. *)
Inductive Uploaded := UploadComplete (calls : nat) | UploadRaised (calls : nat).

(* AudioPipeline lines 128-136 and VideoPipeline lines 154-162:
     jobToDo = True
     while jobToDo:
         jobToDo = not WebScrapingJobLauncher(...)
   [env k] is what call number k finds; at most [rounds] calls are followed,
   each for at most [fuel] steps. *)
Fixpoint upload_loop (env : nat → Launch) (fuel rounds k : nat) : option Uploaded :=
  match rounds with
  | 0 => None
  | S rounds' =>
      match launch fuel (env k) with
      | None => None
      | Some Raise => Some (UploadRaised (S k))
      | Some (Return true) => Some (UploadComplete (S k))
      | Some (Return false) => upload_loop env fuel rounds' (S k)
      end
  end.

(* The calls of WriteJson in a trace. *)
Definition is_write (e : Effect) : bool :=
  match e with
  | Persisted _ | PersistFailed _ => true
  | Upload _ _ | SetCompleted _ | Sleep => false
  end.

Definition writes (tr : list Effect) : nat := length (filter is_write tr).

(* ===================================================================== *)
(** * SharePointDownloader: names and jobs *)
(* ===================================================================== *)

(* A Python str: its code points. *)
Abbreviation pystr := (list N).

(* The str of an ASCII literal of the source. *)
Definition lit (s : string) : pystr :=
  Ascii.N_of_ascii <$> String.list_ascii_of_string s.

(* What json.loads gives.  Of a number only what the downloader can see is
   kept: whether it is zero (its truth value) and the text str() gives. *)
#[warnings="-register-all"]
Inductive json :=
| JNull
| JBool (b : bool)
| JNumber (is_zero : bool) (text : pystr)
| JString (s : pystr)
| JArray (items : list json)
| JObject (members : list (pystr * json)).

(* The tables and conversions of Python that the downloader relies on. *)
Record Python := mkPython {
  isspace : N → bool;         (* the characters str.strip() removes *)
  isword : N → bool;          (* the class \w of re *)
  digit : N → option N;       (* the class \d of re, and the value of the digit *)
  repr_of : json → pystr }.   (* str() of a list or dict *)

(* str(x) *)
Definition py_str (py : Python) (x : json) : pystr :=
  match x with
  | JNull => lit "None"
  | JBool true => lit "True"
  | JBool false => lit "False"
  | JNumber _ text => text
  | JString s => s
  | JArray _ | JObject _ => repr_of py x
  end.

(* bool(x) *)
Definition truthy (x : json) : bool :=
  match x with
  | JNull => false
  | JBool b => b
  | JNumber is_zero _ => negb is_zero
  | JString s => bool_decide (s ≠ [])
  | JArray items => bool_decide (items ≠ [])
  | JObject members => bool_decide (members ≠ [])
  end.

(* d.get(key) on a dict from json.loads *)
Fixpoint member (key : pystr) (members : list (pystr * json)) : option json :=
  match members with
  | [] => None
  | (k, v) :: members' => if decide (k = key) then Some v else member key members'
  end.

Fixpoint lstrip (py : Python) (s : pystr) : pystr :=
  match s with
  | [] => []
  | c :: s' => if isspace py c then lstrip py s' else s
  end.

Definition rstrip (py : Python) (s : pystr) : pystr :=
  reverse (lstrip py (reverse s)).

(* s.strip() *)
Definition strip (py : Python) (s : pystr) : pystr := rstrip py (lstrip py s).

(* The characters the pattern [^\w\-] does not match. *)
Definition kept (py : Python) (c : N) : bool := isword py c || bool_decide (c = 45%N).

(* re.sub(r"[^\w\-]+", "_", s): every maximal run of characters outside
   the class becomes one "_".  [in_run] says that the run the previous
   character belongs to has been replaced already. *)
Fixpoint sub_runs (py : Python) (in_run : bool) (s : pystr) : pystr :=
  match s with
  | [] => []
  | c :: s' =>
      if kept py c then c :: sub_runs py false s'
      else if in_run then sub_runs py true s'
      else 95%N :: sub_runs py true s'
  end.

(* Lines 21-24.  [None] is the argument None. *)
Definition _sanitize_name (py : Python) (name : option pystr) : pystr :=
  let name := strip py (default [] name) in
  let name := sub_runs py false name in
  match name with
  | [] => lit "unnamed"
  | _ :: _ => take 120 name
  end.

(* Modelled from the spec: WebScraper.VideoTranscriptJobDescriptor is not
   among the sources; a SharePointLinkJob is made from a name and a url and
   has them as its attributes .name and .url. *)
Record SharePointLinkJob := mkJob { job_name : pystr; job_url : pystr }.

(* A file of the folder after read_text().strip() and json.loads. *)
Inductive FileText :=
| Blank                    (* empty after strip *)
| Malformed                (* json.JSONDecodeError *)
| Parsed (data : json).

Inductive LoadError :=
| FileNotFoundError                                      (* line 31 *)
| EmptyFile (path : pystr)                               (* ValueError, line 43 *)
| InvalidJson (path : pystr)                             (* ValueError, line 48 *)
| DuplicateName (name : pystr) (other path : pystr)      (* ValueError, line 55 *)
| UnsupportedItem (path : pystr)                         (* ValueError, line 76 *)
| UnsupportedFormat (path : pystr).                      (* ValueError, line 79 *)

(* The two accumulators of load_sharepoint_jobs. *)
Record Loaded := mkLoaded {
  loaded_jobs : list SharePointLinkJob;
  name_to_source : gmap pystr pystr }.

(* Lines 50-61. *)
Definition add_job (py : Python) (data_path : pystr) (name url : json)
    (acc : Loaded) : LoadError + Loaded :=
  let clean_name := _sanitize_name py (Some (py_str py name)) in
  match name_to_source acc !! clean_name with
  | Some other => inl (DuplicateName clean_name other data_path)
  | None =>
      inr (mkLoaded (loaded_jobs acc ++ [mkJob clean_name (py_str py url)])
                    (<[clean_name := data_path]> (name_to_source acc)))
  end.

(* Lines 68-76, for one item of a list. *)
Definition add_item (py : Python) (data_path : pystr) (item : json)
    (acc : Loaded) : LoadError + Loaded :=
  match item with
  | JObject members =>
      match member (lit "name") members, member (lit "url") members with
      | Some name, Some url => add_job py data_path name url acc
      | _, _ => inl (UnsupportedItem data_path)
      end
  | JArray (name :: url :: _) => add_job py data_path name url acc
  | _ => inl (UnsupportedItem data_path)
  end.

(* A for loop whose body may raise: the first exception ends it. *)
Fixpoint for_each {E X A} (body : X → A → E + A) (xs : list X) (acc : A) : E + A :=
  match xs with
  | [] => inr acc
  | x :: xs' =>
      match body x acc with
      | inl e => inl e
      | inr acc' => for_each body xs' acc'
      end
  end.

(* Lines 38-79, for one file. *)
Definition load_file (py : Python) (file : pystr * FileText) (acc : Loaded)
  : LoadError + Loaded :=
  match file.2 with
  | Blank => inl (EmptyFile file.1)
  | Malformed => inl (InvalidJson file.1)
  | Parsed (JObject members) =>
      for_each (λ kv, add_job py file.1 (JString kv.1) kv.2) members acc
  | Parsed (JArray items) => for_each (add_item py file.1) items acc
  | Parsed _ => inl (UnsupportedFormat file.1)
  end.

(* Lines 26-82.  [candidates] are the files sorted(raw_folder.glob("*.json"))
   finds, each with its path and contents. *)
Definition load_sharepoint_jobs (py : Python) (candidates : list (pystr * FileText))
  : LoadError + list SharePointLinkJob :=
  match candidates with
  | [] => inl FileNotFoundError
  | _ :: _ =>
      match for_each (load_file py) candidates (mkLoaded [] ∅) with
      | inl e => inl e
      | inr acc => inr (loaded_jobs acc)
      end
  end.

(* The entries of a file: the members of a dict, the items of a list. *)
Definition entries (txt : FileText) : nat :=
  match txt with
  | Parsed (JObject members) => length members
  | Parsed (JArray items) => length items
  | _ => 0
  end.

(* The name and url an item of a list stands for, if it is of a supported
   form; the pairs of a file, in the order of the file. *)
Definition item_pair (item : json) : option (json * json) :=
  match item with
  | JObject members =>
      match member (lit "name") members, member (lit "url") members with
      | Some name, Some url => Some (name, url)
      | _, _ => None
      end
  | JArray (name :: url :: _) => Some (name, url)
  | _ => None
  end.

Definition file_pairs (txt : FileText) : list (json * json) :=
  match txt with
  | Parsed (JObject members) => (λ kv, (JString kv.1, kv.2)) <$> members
  | Parsed (JArray items) => omap item_pair items
  | _ => []
  end.

Definition job_of (py : Python) (pair : json * json) : SharePointLinkJob :=
  mkJob (_sanitize_name py (Some (py_str py pair.1))) (py_str py pair.2).

(* What the statements about the downloader assume of Python's tables:
   "_" and the letters of "unnamed" are word characters, and no character
   that strip() removes is a word character or "-". *)
Record PythonFacts (py : Python) : Prop := {
  word_underscore : isword py 95 = true;
  word_unnamed : Forall (λ c, isword py c = true) (lit "unnamed");
  space_not_kept : ∀ c, isspace py c = true → kept py c = false }.

(* The tables of Python restricted to ASCII. *)
Definition ascii_python : Python :=
  mkPython
    (λ c, bool_decide (c ∈ [9; 10; 11; 12; 13; 28; 29; 30; 31; 32]%N))
    (λ c, bool_decide ((48 ≤ c ≤ 57) ∨ (65 ≤ c ≤ 90) ∨ (97 ≤ c ≤ 122) ∨ c = 95)%N)
    (λ c, if bool_decide (48 ≤ c ≤ 57)%N then Some (c - 48)%N else None)
    (λ _, []).

(* ===================================================================== *)
(** * SharePointDownloader: urls, row numbers, the scroll container *)
(* ===================================================================== *)

(* A dict with str keys, in insertion order: d.get(key) and d[key] = v. *)
Fixpoint dict_get {V} (key : pystr) (d : list (pystr * V)) : option V :=
  match d with
  | [] => None
  | (k, v) :: d' => if decide (k = key) then Some v else dict_get key d'
  end.

Fixpoint dict_set {V} (key : pystr) (v : V) (d : list (pystr * V))
  : list (pystr * V) :=
  match d with
  | [] => [(key, v)]
  | (k, x) :: d' =>
      if decide (k = key) then (k, v) :: d' else (k, x) :: dict_set key v d'
  end.

(* The result of urlparse. *)
Record ParseResult := mkParseResult {
  scheme : pystr; netloc : pystr; path : pystr;
  params : pystr; query : pystr; fragment : pystr }.

(* The functions of urllib.parse the downloader calls. *)
Record Urllib := mkUrllib {
  urlparse : pystr → ParseResult;
  geturl : ParseResult → pystr;
  parse_qs : pystr → list (pystr * list pystr);
  unquote : pystr → pystr;
  (* urlencode(flat, doseq=False, safe="/%:.-_") *)
  urlencode : list (pystr * (pystr + list pystr)) → pystr }.

(* Lines 99-103:
     for _ in range(3):
         d2 = unquote(decoded)
         if d2 == decoded: break
         decoded = d2 *)
Fixpoint unquote_until_stable (unquote : pystr → pystr) (n : nat)
    (decoded : pystr) : pystr :=
  match n with
  | 0 => decoded
  | S n' =>
      let d2 := unquote decoded in
      if decide (d2 = decoded) then decoded
      else unquote_until_stable unquote n' d2
  end.

(* Line 106: the first value of every key; an empty list stays a list. *)
Definition flatten (qs : list (pystr * list pystr))
  : list (pystr * (pystr + list pystr)) :=
  (λ kv, (kv.1, match kv.2 with
                | v0 :: _ => inl v0
                | [] => inr kv.2
                end)) <$> qs.

(* p._replace(query=new_query) *)
Definition replace_query (p : ParseResult) (new_query : pystr) : ParseResult :=
  mkParseResult (scheme p) (netloc p) (path p) (params p) new_query (fragment p).

(* Lines 93-108. *)
Definition normalize_sharepoint_stream_url (lib : Urllib) (url : pystr) : pystr :=
  let p := urlparse lib url in
  let qs := parse_qs lib (query p) in
  let qs := match dict_get (lit "id") qs with
            | Some (first :: _) =>
                dict_set (lit "id")
                  [unquote_until_stable (unquote lib) 3 first] qs
            | Some [] | None => qs
            end in
  geturl lib (replace_query p (urlencode lib (flatten qs))).

(* The digits a match of \d+ starting here consists of. *)
Fixpoint leading_digits (py : Python) (s : pystr) : list N :=
  match s with
  | [] => []
  | c :: s' =>
      match digit py c with
      | Some d => d :: leading_digits py s'
      | None => []
      end
  end.

(* re.search(r"(\d+)", s): the first run of digits, if there is one. *)
Fixpoint search_digits (py : Python) (s : pystr) : option (list N) :=
  match s with
  | [] => None
  | c :: s' =>
      match digit py c with
      | Some _ => Some (leading_digits py s)
      | None => search_digits py s'
      end
  end.

(* int() of a run of digits *)
Definition int_of_digits (ds : list N) : N :=
  foldl (λ acc d, 10 * acc + d)%N 0%N ds.

(* Lines 118-120. *)
Definition _extract_int (py : Python) (s : option pystr) : option N :=
  int_of_digits <$> search_digits py (default [] s).

(* str(n) of a number that is not negative, as the f-strings of lines 152-173
   and the ids of the page write it. *)
Fixpoint decimal (fuel : nat) (n : N) : list N :=
  match fuel with
  | 0 => []
  | S fuel' =>
      if decide (n < 10)%N then [n]
      else decimal fuel' (n `div` 10)%N ++ [n `mod` 10]%N
  end.

Definition str_int (n : N) : pystr :=
  (λ d, 48 + d)%N <$> decimal (S (N.to_nat n)) n.

(* What _find_transcript_scroll_container sees of the page. *)
Record Dom := mkDom {
  (* driver.find_elements(By.CSS_SELECTOR, "div[id^='sub-entry-']") *)
  dom_rows : list nat;
  (* el.find_element(By.XPATH, ".."); None when it raises *)
  parent_of : nat → option nat;
  (* the truth of what the script returns for the element *)
  scrollable : nat → bool }.

(* The loop of lines 129-146, with [n] passes left. *)
Fixpoint climb (dom : Dom) (n : nat) (el : nat) : option nat :=
  match n with
  | 0 => None
  | S n' =>
      match parent_of dom el with
      | None => None
      | Some parent =>
          if scrollable dom parent then Some parent else climb dom n' parent
      end
  end.

(* Lines 123-148. *)
Definition _find_transcript_scroll_container (dom : Dom) : option nat :=
  match dom_rows dom with
  | [] => None
  | el :: _ => climb dom 35 el
  end.

(* The ancestor [k] levels above an element. *)
Fixpoint ancestor (dom : Dom) (k : nat) (el : nat) : option nat :=
  match k with
  | 0 => Some el
  | S k' => ancestor dom k' el ≫= parent_of dom
  end.

(* ===================================================================== *)
(** * SharePointDownloader: reading the transcript *)
(* ===================================================================== *)

(* An element of the page, by what reading its .text gives: [None] when the
   attribute is None or reading it raises. *)
Abbreviation Element := (option pystr).

(* Lines 111-115. *)
Definition _safe_text (py : Python) (el : Element) : pystr :=
  strip py (default [] el).

(* The dict _parse_transcript_item returns. *)
Record Row := mkRow {
  row_index : N; row_timestamp : pystr; row_speaker : pystr; row_text : pystr }.

(* The page at one moment.  Each query is keyed by the row number in its
   selector; [None] is a StaleElementReferenceException. *)
Record Page := mkPage {
  (* the ids of the elements div[id^='sub-entry-'] *)
  entry_ids : list pystr;
  (* div#sub-entry-{idx} *)
  sub_entry : N → option (list Element);
  (* div#itemHeader-{idx} span.itemDisplayName-507 *)
  item_header : N → option (list Element);
  (* span#Header-timestamp-{idx} *)
  header_timestamp : N → option (list Element);
  (* div#sub-entry-{idx} p.eventSpeakerName-501 *)
  event_speaker : N → option (list Element) }.

(* _safe_text(found[0]) if found else "" *)
Definition first_text (py : Python) (found : list Element) : pystr :=
  match found with
  | [] => []
  | el :: _ => _safe_text py el
  end.

(* Lines 151-180. *)
Definition _parse_transcript_item (py : Python) (page : Page) (idx : N)
  : option Row :=
  sub ← sub_entry page idx;
  match sub with
  | [] => None
  | el :: _ =>
      let text := _safe_text py el in
      match text with
      | [] => None
      | _ :: _ =>
          header ← item_header page idx;
          let speaker := first_text py header in
          ts ← header_timestamp page idx;
          let timestamp := first_text py ts in
          speaker ← match speaker with
                    | [] => first_text py <$> event_speaker page idx
                    | _ :: _ => Some speaker
                    end;
          Some (mkRow idx timestamp speaker text)
      end
  end.

(* What read_full_rows meets: whether an entry shows up before the first
   wait times out, the page during each pass of the loop, and whether
   max_seconds have gone by at the head of a pass. *)
Record Browser := mkBrowser {
  wait_entries : bool;
  page_at : nat → Page;
  out_of_time : nat → bool }.

(* Lines 232-243: the row numbers among the ids, and the rows not seen
   before that parse now. *)
Definition scan (py : Python) (page : Page) (seen : gmap N Row) : gmap N Row :=
  let indices := omap (λ sid, _extract_int py (Some sid)) (entry_ids page) in
  foldl (λ seen idx,
           match seen !! idx with
           | Some _ => seen
           | None =>
               match _parse_transcript_item py page idx with
               | Some item => <[idx := item]> seen
               | None => seen
               end
           end)
        seen (merge_sort N.le (remove_dups indices)).

(* The loop of lines 222-267 from pass [loop_i] on, with [loops] passes left. *)
Fixpoint scroll_loop (py : Python) (b : Browser) (stable_loops : nat)
    (loops loop_i : nat) (seen : gmap N Row) (prev_count stable : nat)
  : gmap N Row :=
  match loops with
  | 0 => seen
  | S loops' =>
      if out_of_time b loop_i then seen
      else
        let seen := scan py (page_at b loop_i) seen in
        let stable := if decide (size seen = prev_count) then S stable else 0 in
        let prev_count := size seen in
        if decide (stable_loops ≤ stable) then seen
        else scroll_loop py b stable_loops loops' (S loop_i) seen prev_count stable
  end.

(* [seen[i] for i in sorted(seen.keys())] *)
Definition rows_of (seen : gmap N Row) : list Row :=
  omap (λ i, seen !! i) (merge_sort N.le (map_to_list seen).*1).

(* Lines 203-271; [None] is the TimeoutException of the first wait. *)
Definition read_full_rows (py : Python) (b : Browser)
    (max_loops stable_loops : nat) : option (list Row) :=
  if wait_entries b
  then Some (rows_of (scroll_loop py b stable_loops max_loops 0 ∅ 0 0))
  else None.

(* (r.get("text") or "").strip() for a row read back from a json file;
   [None] when it raises: the row is no dict, or its text is neither false
   nor a str. *)
Definition text_of (py : Python) (r : json) : option pystr :=
  match r with
  | JObject members =>
      match member (lit "text") members with
      | None => Some []
      | Some v =>
          if truthy v
          then match v with
               | JString s => Some (strip py s)
               | _ => None
               end
          else Some []
      end
  | _ => None
  end.

(* sep.join(pieces) *)
Fixpoint join (sep : pystr) (pieces : list pystr) : pystr :=
  match pieces with
  | [] => []
  | [piece] => piece
  | piece :: pieces' => piece ++ sep ++ join sep pieces'
  end.

(* Lines 274-275. *)
Definition rows_to_text (py : Python) (rows : list json) : option pystr :=
  texts ← mapM (text_of py) rows;
  Some (join [10%N] (filter (λ text, text ≠ []) texts)).

(* The row as WriteJson stores it and ReadJson gives it back. *)
Definition row_json (r : Row) : json :=
  JObject [(lit "index", JNumber (bool_decide (row_index r = 0%N)) (str_int (row_index r)));
           (lit "timestamp", JString (row_timestamp r));
           (lit "speaker", JString (row_speaker r));
           (lit "text", JString (row_text r))].

(* ===================================================================== *)
(** * SharePointDownloader: from the saved json to markdown *)
(* ===================================================================== *)

(* What out_md.write_text(text) does: it writes the text, or it raises and
   leaves behind no file or a file with some contents. *)
Inductive WriteText :=
| Written
| WriteFailed (left_behind : option pystr).

(* A file of sorted(json_folder.glob("*.json")): its stem, what ReadJson
   gives for it ([None] when it raises), and what writing its markdown
   does if it comes to that. *)
Record JsonFile := mkJsonFile {
  stem : pystr; read_json : option json; write_text : WriteText }.

Inductive ConvertLog :=
| NoJsonFiles                                  (* line 373 *)
| SavedMd (name : pystr) (text : pystr)        (* line 395 *)
| SkippedMd (name : pystr)                     (* line 390 *)
| ConvertFailed (p_stem : pystr).              (* line 398 *)

(* str(data.get("name") or p.stem), sanitized: line 384. *)
Definition md_name (py : Python) (p_stem : pystr)
    (data : list (pystr * json)) : pystr :=
  let name := match member (lit "name") data with
              | Some v => if truthy v then v else JString p_stem
              | None => JString p_stem
              end in
  _sanitize_name py (Some (py_str py name)).

(* rows_to_text(data.get("rows") or []), lines 385 and 393: iterating
   anything true that is not a list raises, at once or at its first
   element, which is then a str. *)
Definition md_text (py : Python) (data : list (pystr * json)) : option pystr :=
  match member (lit "rows") data with
  | None => rows_to_text py []
  | Some v =>
      if truthy v
      then match v with
           | JArray rows => rows_to_text py rows
           | _ => None
           end
      else rows_to_text py []
  end.

(* The body of the loop, lines 381-398.  The folder of the markdown files
   is a map from the file a name stands for to its contents; [file_of] is
   the identity where the names of files are case sensitive. *)
Definition convert_file (py : Python) (file_of : pystr → pystr) (p : JsonFile)
    (md : gmap pystr pystr) : gmap pystr pystr * ConvertLog :=
  match read_json p with
  | Some (JObject data) =>
      let name := md_name py (stem p) data in
      match md !! file_of name with
      | Some _ => (md, SkippedMd name)
      | None =>
          match md_text py data with
          | None => (md, ConvertFailed (stem p))
          | Some text =>
              match write_text p with
              | Written => (<[file_of name := text]> md, SavedMd name text)
              | WriteFailed None => (md, ConvertFailed (stem p))
              | WriteFailed (Some part) =>
                  (<[file_of name := part]> md, ConvertFailed (stem p))
              end
          end
      end
  | Some _ | None => (md, ConvertFailed (stem p))
  end.

Fixpoint convert_files (py : Python) (file_of : pystr → pystr)
    (json_files : list JsonFile) (md : gmap pystr pystr)
  : gmap pystr pystr * list ConvertLog :=
  match json_files with
  | [] => (md, [])
  | p :: json_files' =>
      let '(md, entry) := convert_file py file_of p md in
      let '(md, log) := convert_files py file_of json_files' md in
      (md, entry :: log)
  end.

(* Lines 358-398. *)
Definition ConvertSharePointJsonToMarkdown (py : Python)
    (file_of : pystr → pystr) (json_files : list JsonFile)
    (md : gmap pystr pystr) : gmap pystr pystr * list ConvertLog :=
  match json_files with
  | [] => (md, [NoJsonFiles])
  | _ :: _ => convert_files py file_of json_files md
  end.

(* The files a log says were saved. *)
Definition saved_files (file_of : pystr → pystr) (log : list ConvertLog)
  : list pystr :=
  omap (λ entry, match entry with
                 | SavedMd name _ => Some (file_of name)
                 | _ => None
                 end) log.

(* Two runs over the same json files, whatever writing does in each. *)
Definition same_json (p p' : JsonFile) : Prop :=
  stem p = stem p' ∧ read_json p = read_json p'.

(* The entry of a log is a save or a skip. *)
Definition converted (entry : ConvertLog) : Prop :=
  match entry with
  | SavedMd _ _ | SkippedMd _ => True
  | NoJsonFiles | ConvertFailed _ => False
  end.

(* The name an entry of a log is about, as a skip of it. *)
Definition as_skip (entry : ConvertLog) : ConvertLog :=
  match entry with
  | SavedMd name _ => SkippedMd name
  | _ => entry
  end.

(* The dict GetTranscriptDataFromSharedPoint saves for a job, line 340, as
   ReadJson gives it back. *)
Definition transcript_json (name url : pystr) (rows : list Row) : json :=
  JObject [(lit "name", JString name); (lit "url", JString url);
           (lit "rows", JArray (row_json <$> rows))].

(* ===================================================================== *)
(** * SharePointDownloader: GetTranscriptDataFromSharedPoint *)
(* ===================================================================== *)

Inductive Exception := TimeoutException | OtherException.

(* What WriteJson(out_json, ...) does: it writes the dict, or it raises and
   leaves the file as it was or with some contents. *)
Inductive WriteJsonResult :=
| JsonWritten
| JsonFailed (left_behind : option FileText).

(* What the browser and the disk do for one job. *)
Record Visit := mkVisit {
  (* lines 328-335, from driver.get to the wait for the first entry:
     [None] when they return, the exception when one of them raises *)
  opening : option Exception;
  (* what read_full_rows meets *)
  transcript : Browser;
  write_json : WriteJsonResult }.

Inductive Action :=
| Opened (url : pystr)          (* driver.get(url), line 328 *)
| SavedJson (name : pystr)      (* WriteJson returned, line 340 *)
| SkippedJson (name : pystr)    (* line 324 *)
| TimeoutLogged                 (* line 346 *)
| DriverQuit.                   (* line 350 *)

(* The folder of the json files, as a map from the file a name stands for
   to its contents, and what was done so far. *)
Record Run := mkRun {
  json_folder : gmap pystr FileText;
  actions : list Action }.

(* The defaults of read_full_rows, lines 207-208. *)
Definition default_max_loops : nat := 20 * 1000.
Definition default_stable_loops : nat := 180.

(* The body of the loop, lines 320-343; on the left the exception and the
   run as it was when the exception was raised. *)
Definition visit_job (py : Python) (lib : Urllib) (file_of : pystr → pystr)
    (skip_if_exists : bool) (visit : SharePointLinkJob → Visit)
    (job : SharePointLinkJob) (r : Run) : Exception * Run + Run :=
  let name := _sanitize_name py (Some (job_name job)) in
  let url := normalize_sharepoint_stream_url lib (job_url job) in
  if skip_if_exists && bool_decide (is_Some (json_folder r !! file_of name))
  then inr (mkRun (json_folder r) (actions r ++ [SkippedJson name]))
  else
    let acts := actions r ++ [Opened url] in
    match opening (visit job) with
    | Some e => inl (e, mkRun (json_folder r) acts)
    | None =>
        match read_full_rows py (transcript (visit job))
                default_max_loops default_stable_loops with
        | None => inl (TimeoutException, mkRun (json_folder r) acts)
        | Some rows =>
            match write_json (visit job) with
            | JsonWritten =>
                inr (mkRun (<[file_of name :=
                                Parsed (transcript_json name url rows)]>
                              (json_folder r))
                           (acts ++ [SavedJson name]))
            | JsonFailed None => inl (OtherException, mkRun (json_folder r) acts)
            | JsonFailed (Some left_behind) =>
                inl (OtherException,
                     mkRun (<[file_of name := left_behind]> (json_folder r)) acts)
            end
        end
    end.

(* What happens before the loop: whether mkdir (line 300) returns, and
   whether lines 304-318, the proxy list and the Driver, return. *)
Record Setup := mkSetup { mkdir_ok : bool; driver_ok : bool }.

Inductive GetResult :=
| Finished
| GetRaised (e : Exception)
| LoadRaised (e : LoadError).

(* Lines 281-355. *)
Definition GetTranscriptDataFromSharedPoint (py : Python) (lib : Urllib)
    (file_of : pystr → pystr) (skip_if_exists : bool) (setup : Setup)
    (candidates : list (pystr * FileText)) (visit : SharePointLinkJob → Visit)
    (folder : gmap pystr FileText) : GetResult * Run :=
  if mkdir_ok setup
  then
    match load_sharepoint_jobs py candidates with
    | inl e => (LoadRaised e, mkRun folder [])
    | inr jobs =>
        if driver_ok setup
        then
          match for_each (visit_job py lib file_of skip_if_exists visit) jobs
                  (mkRun folder []) with
          | inr r => (Finished, mkRun (json_folder r) (actions r ++ [DriverQuit]))
          | inl (TimeoutException, r) =>
              (GetRaised TimeoutException,
               mkRun (json_folder r) (actions r ++ [TimeoutLogged; DriverQuit]))
          | inl (OtherException, r) =>
              (GetRaised OtherException,
               mkRun (json_folder r) (actions r ++ [DriverQuit]))
          end
        else (GetRaised OtherException, mkRun folder [])
    end
  else (GetRaised OtherException, mkRun folder []).

(* The run at the end of the loop, whether it ended by an exception or not. *)
Definition run_of (x : Exception * Run + Run) : Run :=
  match x with
  | inl (_, r) => r
  | inr r => r
  end.

(* The names under which a json was saved, and the pages opened. *)
Definition saved_names (acts : list Action) : list pystr :=
  omap (λ a, match a with SavedJson name => Some name | _ => None end) acts.

Definition opened_pages (acts : list Action) : list pystr :=
  omap (λ a, match a with Opened url => Some url | _ => None end) acts.

(* The jobs that have no json in the folder. *)
Definition without_json (file_of : pystr → pystr) (folder : gmap pystr FileText)
    (jobs : list SharePointLinkJob) : list SharePointLinkJob :=
  filter (λ job, folder !! file_of (job_name job) = None) jobs.

(* For the examples: a urllib for urls that are nothing but a query, a page
   with the two rows 1 and 2, and a browser and a disk with which nothing
   fails. *)
Definition sample_urllib : Urllib :=
  mkUrllib (λ url, mkParseResult [] [] [] [] url [])
           query
           (λ q, [(lit "id", [q])])
           (λ s, match s with 37%N :: s' => s' | _ => s end)
           (λ flat, flat ≫= λ kv, match kv.2 with inl v => v | inr _ => [] end).

Definition sample_browser : Browser :=
  mkBrowser true
    (λ _, mkPage [lit "sub-entry-1"; lit "sub-entry-2"]
            (λ idx, Some [Some (if decide (idx = 1%N) then lit "one"
                                else lit "  two ")])
            (λ _, Some []) (λ _, Some []) (λ _, Some []))
    (λ _, false).

Definition sample_visit (job : SharePointLinkJob) : Visit :=
  mkVisit None sample_browser JsonWritten.

(* One file of links with two jobs, and the jobs it loads. *)
Definition sample_candidates : list (pystr * FileText) :=
  [(lit "a.json", Parsed (JObject [(lit "lesson 1", JString (lit "u1"));
                                    (lit "lesson 2", JString (lit "u2"))]))].

Definition sample_jobs : list SharePointLinkJob :=
  [mkJob (lit "lesson_1") (lit "u1"); mkJob (lit "lesson_2") (lit "u2")].

(* ===================================================================== *)
(** * Notions used in the statements about the downloader *)
(* ===================================================================== *)

(* The names of the jobs are distinct and are the keys of name_to_source. *)
Definition names_ok (acc : Loaded) : Prop :=
  NoDup (job_name <$> loaded_jobs acc) ∧
  ∀ name, name ∈ job_name <$> loaded_jobs acc ↔
          is_Some (name_to_source acc !! name).

(* A row as the page gave it: it carries the number it was asked for, and
   its text is not empty and has no white space at its ends. *)
Definition row_ok (py : Python) (idx : N) (r : Row) : Prop :=
  row_index r = idx ∧ row_text r ≠ [] ∧ strip py (row_text r) = row_text r.

(* Every row read so far is as the page gave it. *)
Definition seen_ok (py : Python) (seen : gmap N Row) : Prop :=
  ∀ idx r, seen !! idx = Some r → row_ok py idx r.

(* ===================================================================== *)
(** * Lists: removal of the first occurrence, completion order *)
(* ===================================================================== *)

Section remove_first.
Context {A : Type} `{EqDecision A}.
Implicit Types (x y : A) (l : list A).

Lemma remove_first_sublist x l : remove_first x l `sublist_of` l.
Proof.
  induction l as [|y l IH]; simpl; [done|].
  case_decide; [by apply sublist_cons | by apply sublist_skip].
Qed.

Lemma remove_first_Permutation x l : x ∈ l → l ≡ₚ x :: remove_first x l.
Proof.
  induction l as [|y l IH]; simpl; [by intros ?%elem_of_nil|].
  intros Hx. case_decide as Hxy; [by subst|].
  apply elem_of_cons in Hx as [?|Hx]; [done|].
  rewrite (IH Hx) at 1. apply Permutation_swap.
Qed.

Lemma remove_first_NoDup x l : NoDup l → NoDup (remove_first x l).
Proof. intros Hl. apply (sublist_NoDup _ l Hl), remove_first_sublist. Qed.

Lemma remove_first_not_elem x l : NoDup l → x ∉ remove_first x l.
Proof.
  induction 1 as [|y l Hy Hl IH]; simpl; [apply not_elem_of_nil|].
  case_decide as Hxy; [by subst|].
  rewrite not_elem_of_cons. by split.
Qed.

Lemma remove_first_elem x y l : y ∈ remove_first x l → y ∈ l.
Proof. intros Hy. eapply elem_of_sublist; [done|apply remove_first_sublist]. Qed.

Lemma remove_first_elem_ne x y l : y ≠ x → y ∈ l → y ∈ remove_first x l.
Proof.
  intros Hne. induction l as [|z l IH]; simpl; [done|].
  intros Hy. case_decide as Hxz.
  - subst z. apply elem_of_cons in Hy as [?|?]; [done|done].
  - apply elem_of_cons in Hy as [->|Hy]; [left|right; auto].
Qed.

Lemma remove_first_submseteq x k l :
  x :: k ⊆+ l → k ⊆+ remove_first x l.
Proof.
  intros Hk.
  assert (x ∈ l) as Hx by (eapply elem_of_submseteq; [left|done]).
  rewrite (remove_first_Permutation x l Hx) in Hk.
  by apply (submseteq_app_inv_l _ _ [x]).
Qed.
End remove_first.

Lemma insert_by_Permutation t f fs : insert_by t f fs ≡ₚ f :: fs.
Proof.
  induction fs as [|g fs IH]; simpl; [done|].
  case_decide; [done|]. rewrite IH. apply Permutation_swap.
Qed.

Lemma as_completed_Permutation t fs : as_completed t fs ≡ₚ fs.
Proof.
  induction fs as [|f fs IH]; simpl; [done|].
  by rewrite insert_by_Permutation, IH.
Qed.

Lemma imap_proxies (g : nat → Proxy → Future) (proxies : list Proxy) :
  (∀ i proxy, proxy_of (g i proxy) = proxy) → proxy_of <$> imap g proxies = proxies.
Proof.
  revert g. induction proxies as [|p ps IH]; intros g Hg; simpl; [done|].
  rewrite Hg. f_equal. apply IH. intros i proxy. apply Hg.
Qed.

Lemma submit_proxies w n job proxies :
  proxy_of <$> submit w n job proxies = proxies.
Proof. unfold submit. by apply imap_proxies. Qed.

(* The futures of a round, in completion order, stand for the proxies of the
   snapshot, each once. *)
Lemma round_proxies w n job proxies :
  proxy_of <$> as_completed (finished_at w n job) (submit w n job proxies)
    ≡ₚ proxies.
Proof. by rewrite as_completed_Permutation, submit_proxies. Qed.

(* ===================================================================== *)
(** * The invariant of a run *)
(* ===================================================================== *)

Lemma run_S w n st : run w (S n) st = step w (run w n st).
Proof. reflexivity. Qed.

Lemma run_add w n k st : run w (n + k) st = run w k (run w n st).
Proof.
  induction k as [|k IH]; [by rewrite Nat.add_0_r|].
  by rewrite Nat.add_succ_r, !run_S, IH.
Qed.

Lemma step_Returned w st b : pc st = Returned b → step w st = st.
Proof. intros Hpc. unfold step. by rewrite Hpc. Qed.

Lemma run_Returned w n st b : pc st = Returned b → run w n st = st.
Proof.
  intros Hpc. induction n as [|n IH]; [done|].
  rewrite run_S, IH. by apply step_Returned with b.
Qed.

Lemma forallb_seq_true (f : nat → bool) n :
  forallb f (seq 0 n) = true ↔ ∀ job, job < n → f job = true.
Proof.
  rewrite forallb_forall. split.
  - intros Hf job Hjob. apply Hf, list_elem_of_In, elem_of_seq. lia.
  - intros Hf job Hjob%list_elem_of_In%elem_of_seq. apply Hf. lia.
Qed.

Lemma forallb_seq_false (f : nat → bool) n job :
  job < n → f job = false → forallb f (seq 0 n) = false.
Proof.
  intros Hjob Hf. destruct (forallb f (seq 0 n)) eqn:Hall; [|done].
  rewrite forallb_seq_true in Hall. by rewrite (Hall job Hjob) in Hf.
Qed.

Lemma Init_Inv proxies file outputs : Inv proxies outputs (Init proxies file outputs).
Proof.
  assert (∀ job, job ∈ filter (λ job, negb (isfile outputs job))
                         (seq 0 (length outputs)) →
            job < length outputs ∧ isfile outputs job = false) as Hin.
  { intros job [Hf Hs]%list_elem_of_filter. apply elem_of_seq in Hs.
    split; [lia|]. by destruct (isfile outputs job). }
  split; simpl.
  - done.
  - apply NoDup_filter, NoDup_seq.
  - by rewrite length_replicate.
  - intros job Hjob. destruct (Hin job Hjob) as [Hlt Hfile].
    split_and!; [done..|]. unfold is_completed. simpl.
    by rewrite lookup_replicate_2.
  - intros key v. by rewrite lookup_empty.
  - intros job proxy. by intros ?%elem_of_nil.
  - intros job. unfold times_marked. simpl. split; [lia|done].
  - unfold pc_ok, Init. simpl.
    destruct (filter _ _) as [|job incomplete] eqn:Hfilter; simpl.
    + split; [done|]. symmetry. apply forallb_seq_true.
      intros job Hjob. unfold ended_completed.
      destruct (isfile outputs job) eqn:Hfile; [done|].
      assert (job ∈ filter (λ job, negb (isfile outputs job))
                (seq 0 (length outputs))) as Hjf.
      { apply list_elem_of_filter. split; [by rewrite Hfile|].
        apply elem_of_seq. lia. }
      rewrite Hfilter in Hjf. by apply elem_of_nil in Hjf.
    + by right.
Qed.

Lemma elem_of_snoc_Upload (tr : list Effect) (e : Effect) job proxy :
  (∀ job' proxy', e ≠ Upload job' proxy') →
  Upload job proxy ∈ tr ++ [e] → Upload job proxy ∈ tr.
Proof.
  intros He [?|Hin%list_elem_of_singleton]%elem_of_app; [done|].
  by destruct (He job proxy).
Qed.

Lemma filter_marks_other (e : Effect) job :
  e ≠ SetCompleted job → filter (λ e', e' = SetCompleted job) [e] = [].
Proof. intros He. rewrite filter_cons. by case_decide. Qed.

Lemma filter_marks_Upload job job' (proxies : list Proxy) :
  filter (λ e, e = SetCompleted job) (Upload job' <$> proxies) = [].
Proof.
  induction proxies as [|p ps IH]; [done|].
  rewrite fmap_cons, filter_cons. by case_decide.
Qed.

(* A write of the proxy file followed by [c], or by the exception: what it
   leaves as it is. *)
Lemma WriteJson_proxy_list c ok st :
  proxy_list (then_goto c (WriteJson ok st)) = proxy_list st.
Proof. by destruct ok. Qed.

Lemma WriteJson_proxy_failures c ok st :
  proxy_failures (then_goto c (WriteJson ok st)) = proxy_failures st.
Proof. by destruct ok. Qed.

Lemma WriteJson_IsCompleted c ok st :
  IsCompleted (then_goto c (WriteJson ok st)) = IsCompleted st.
Proof. by destruct ok. Qed.

Lemma WriteJson_PROXY_FILE c ok st :
  PROXY_FILE (then_goto c (WriteJson ok st))
    = if ok then proxy_list st else PROXY_FILE st.
Proof. by destruct ok. Qed.

Lemma WriteJson_pc c ok st :
  pc (then_goto c (WriteJson ok st)) = if ok then c else Raised.
Proof. by destruct ok. Qed.

Lemma WriteJson_trace c ok st :
  trace (then_goto c (WriteJson ok st))
    = trace st ++ [if ok then Persisted (proxy_list st)
                   else PersistFailed (proxy_list st)].
Proof. by destruct ok. Qed.

Lemma Inv_then_goto proxies outputs c ok st :
  Inv proxies outputs (goto c st) →
  Inv proxies outputs (then_goto c (WriteJson ok st)).
Proof.
  intros [Hpool Hnodup Hlen Hinc Htally Hup Hmarks Hpc]. simpl in *.
  assert (∀ job proxy,
            Upload job proxy ∈ trace (then_goto c (WriteJson ok st)) →
            isfile outputs job = false) as Hup'.
  { intros job proxy. rewrite WriteJson_trace.
    intros ?%elem_of_snoc_Upload; [eauto|by destruct ok]. }
  assert (∀ job, times_marked (then_goto c (WriteJson ok st)) job
                 = times_marked (goto c st) job) as Htimes.
  { intros job. unfold times_marked. rewrite WriteJson_trace.
    rewrite filter_app, length_app, filter_marks_other by (by destruct ok).
    simpl. by rewrite Nat.add_0_r. }
  split; try (by destruct ok).
  intros job. rewrite Htimes. unfold is_completed.
  rewrite WriteJson_IsCompleted. apply Hmarks.
Qed.

Lemma step_Inv w proxies outputs st :
  Inv proxies outputs st → Inv proxies outputs (step w st).
Proof.
  intros [Hpool Hnodup Hlen Hinc Htally Hup Hmarks Hpc].
  unfold pc_ok in Hpc. unfold step.
  destruct (pc st) as [|[|job todo]|job [|f pending] todo|b|] eqn:Hst.
  - (* the while test *)
    destruct (proxy_list st) as [|p ps] eqn:Hps.
    + destruct Hpc as [?|Hne]; [done|].
      destruct (incomplete_jobs st) as [|job inc] eqn:Hjobs; [done|].
      destruct (Hinc job) as (Hjob & Hfile & Hflag); [left|].
      split; simpl; rewrite ?Hps, ?Hjobs; try done.
      unfold pc_ok. simpl. rewrite Hjobs. split.
      * rewrite bool_decide_eq_false_2 by done. unfold video_jobs.
        apply forallb_seq_false with job; [by rewrite Hlen|done].
      * unfold video_jobs. rewrite (forallb_seq_false _ _ job); [|by rewrite Hlen|done].
        symmetry. apply forallb_seq_false with job; [done|].
        unfold ended_completed. rewrite Hfile. apply Hflag.
    + split; simpl; rewrite ?Hps; try done.
      unfold pc_ok. simpl. split_and!; [done|done|]. left. by rewrite Hps.
  - (* a sweep is over *)
    destruct Hpc as (_ & _ & Hne).
    split; simpl; try done.
    + intros job proxy ?%elem_of_snoc_Upload; [eauto|discriminate].
    + intros job. unfold times_marked. simpl.
      rewrite filter_app, length_app, filter_marks_other by discriminate.
      simpl. rewrite Nat.add_0_r. apply Hmarks.
  - (* the next job of the sweep *)
    destruct Hpc as (Htodo & Hsub & Hne).
    apply NoDup_cons in Htodo as Htodo'. destruct Htodo' as [Hjob Htodo'].
    destruct (Lock_locked w (sweeps st) job).
    + split; simpl; try done. unfold pc_ok. simpl.
      split_and!; [done| |done]. intros x Hx. apply Hsub. by right.
    + split; simpl; try done.
      * intros job' proxy [?|Hin]%elem_of_app; [eauto|].
        apply list_elem_of_fmap in Hin as (p & Heq & _). injection Heq as -> _.
        apply Hinc, Hsub. left.
      * intros job'. unfold times_marked. simpl.
        rewrite filter_app, length_app, filter_marks_Upload. simpl.
        rewrite Nat.add_0_r. apply Hmarks.
      * unfold pc_ok. simpl. split_and!; [done|done|].
        apply Permutation_submseteq, round_proxies.
  - (* a round is over without success *)
    destruct Hpc as (Htodo & Hsub & _).
    apply NoDup_cons in Htodo as [_ Htodo].
    split; simpl; try done. unfold pc_ok. simpl. split_and!; [done| |].
    + intros x Hx. apply Hsub. by right.
    + right. intros Hnil. specialize (Hsub job). rewrite Hnil in Hsub.
      eapply elem_of_nil, Hsub. left.
  - (* the outcome of a future *)
    destruct Hpc as (Htodo & Hsub & Hpend). rewrite fmap_cons in Hpend.
    assert (proxy_of f ∈ proxy_list st) as Hf
      by (eapply elem_of_submseteq; [left|done]).
    assert (job ∈ incomplete_jobs st) as Hjob by (apply Hsub; left).
    apply NoDup_cons in Htodo as Htodo'. destruct Htodo' as [Hjt Htodo'].
    unfold on_outcome. destruct (result f); simpl.
    + (* Success *)
      rewrite decide_True by done.
      destruct (Hinc job Hjob) as (Hlt & Hfile & Hflag).
      split; simpl; try done.
      * by apply remove_first_NoDup.
      * by rewrite length_insert.
      * intros job' Hjob'.
        assert (job' ≠ job) as Hne.
        { intros ->. by apply (remove_first_not_elem job (incomplete_jobs st)). }
        apply remove_first_elem in Hjob'.
        destruct (Hinc job' Hjob') as (? & ? & Hflag').
        split_and!; [done..|]. unfold is_completed in *. simpl.
        by rewrite list_lookup_insert_ne.
      * intros job' proxy ?%elem_of_snoc_Upload; [eauto|discriminate].
      * intros job'. unfold times_marked, is_completed in *. simpl.
        rewrite filter_app, length_app.
        destruct (decide (job' = job)) as [->|Hne].
        -- rewrite filter_cons, decide_True by done. simpl.
           rewrite list_lookup_insert_eq by lia. simpl.
           destruct (Hmarks job) as [_ H0]. rewrite (H0 Hflag). split; [lia|done].
        -- rewrite filter_marks_other by congruence. simpl.
           rewrite Nat.add_0_r, list_lookup_insert_ne by done. apply Hmarks.
      * unfold pc_ok. simpl. split_and!; [done| |].
        -- intros x Hx. apply remove_first_elem_ne.
           ++ intros ->. done.
           ++ apply Hsub. by right.
        -- left. intros Hnil. rewrite Hnil in Hf. by apply elem_of_nil in Hf.
    + (* PageConnectionError *)
      rewrite decide_True by done. apply Inv_then_goto.
      split; simpl; try done.
      * etrans; [apply remove_first_sublist|done].
      * unfold pc_ok. simpl.
        split_and!; [done|done|by apply remove_first_submseteq].
    + (* GenericError *)
      assert (default 0 (proxy_failures st !! proxy_str (proxy_of f)) < MAX_RETRIES)
        as Ht.
      { destruct (proxy_failures st !! proxy_str (proxy_of f)) as [v|] eqn:Hv;
          simpl; [apply Htally in Hv; lia|unfold MAX_RETRIES; lia]. }
      destruct (decide (MAX_RETRIES ≤ _)) as [Hc|Hc]; simpl.
      * rewrite decide_True by done. simpl. apply Inv_then_goto.
        split; simpl; try done.
        -- etrans; [apply remove_first_sublist|done].
        -- intros key v.
           destruct (decide (proxy_str (proxy_of f) = key)) as [<-|Hne].
           ++ by rewrite lookup_delete_eq.
           ++ rewrite lookup_delete_ne, lookup_insert_ne by done. apply Htally.
        -- unfold pc_ok. simpl.
           split_and!; [done|done|by apply remove_first_submseteq].
      * split; simpl; try done.
        -- intros key v. destruct (decide (proxy_str (proxy_of f) = key)) as [<-|Hne].
           ++ rewrite lookup_insert_eq. intros [= <-]. unfold MAX_RETRIES in *. lia.
           ++ rewrite lookup_insert_ne by done. apply Htally.
        -- unfold pc_ok. simpl. split_and!; [done|done|].
           transitivity (proxy_of f :: (proxy_of <$> pending)); [|done].
           by apply submseteq_cons.
  - (* returned *)
    split; try done. unfold pc_ok. by rewrite Hst.
  - (* raised *)
    split; try done. unfold pc_ok. by rewrite Hst.
Qed.

Lemma run_Inv w proxies file outputs n :
  Inv proxies outputs (run w n (Init proxies file outputs)).
Proof.
  induction n as [|n IH]; [apply Init_Inv|]. rewrite run_S. by apply step_Inv.
Qed.


Lemma step_halted w st : running st = false → step w st = st.
Proof. unfold running, step. by destruct (pc st). Qed.


(* ===================================================================== *)
(** * Handling one outcome *)
(* ===================================================================== *)

Lemma step_InRound w st job f pending todo :
  pc st = InRound job (f :: pending) todo →
  step w st = on_outcome w job f pending todo st.
Proof. intros Hpc. unfold step. by rewrite Hpc. Qed.

Lemma on_outcome_Success w job f pending todo st :
  result f = Success →
  proxy_list (on_outcome w job f pending todo st) = proxy_list st ∧
  PROXY_FILE (on_outcome w job f pending todo st) = PROXY_FILE st ∧
  proxy_failures (on_outcome w job f pending todo st) = proxy_failures st ∧
  IsCompleted (on_outcome w job f pending todo st)
    = <[job := true]> (IsCompleted st) ∧
  pc (on_outcome w job f pending todo st) = InSweep todo.
Proof. intros Hf. unfold on_outcome. rewrite Hf. simpl. by case_decide. Qed.

Lemma on_outcome_ConnectionError w job f pending todo st :
  result f = PageConnectionError → proxy_of f ∈ proxy_list st →
  on_outcome w job f pending todo st =
    then_goto (InRound job pending todo)
      (WriteJson (write_succeeds w (sweeps st) job (slot f))
         (set_proxy_list (remove_first (proxy_of f) (proxy_list st)) st)).
Proof. intros Hf Hin. unfold on_outcome. rewrite Hf. simpl. by rewrite decide_True. Qed.

Lemma on_outcome_GenericError_below w job f pending todo st :
  result f = GenericError →
  S (default 0 (proxy_failures st !! proxy_str (proxy_of f))) < MAX_RETRIES →
  on_outcome w job f pending todo st =
    goto (InRound job pending todo)
      (set_proxy_failures
         (<[proxy_str (proxy_of f) :=
              S (default 0 (proxy_failures st !! proxy_str (proxy_of f)))]>
            (proxy_failures st)) st).
Proof.
  intros Hf Hlt. unfold on_outcome. rewrite Hf. simpl.
  rewrite Nat.add_1_r. rewrite decide_False by lia. done.
Qed.

Lemma on_outcome_GenericError_ceiling w job f pending todo st :
  result f = GenericError →
  MAX_RETRIES ≤ S (default 0 (proxy_failures st !! proxy_str (proxy_of f))) →
  proxy_of f ∈ proxy_list st →
  on_outcome w job f pending todo st =
    then_goto (InRound job pending todo)
      (WriteJson (write_succeeds w (sweeps st) job (slot f))
         (set_proxy_failures (delete (proxy_str (proxy_of f)) (proxy_failures st))
            (set_proxy_list (remove_first (proxy_of f) (proxy_list st)) st))).
Proof.
  intros Hf Hge Hin. unfold on_outcome. rewrite Hf. simpl.
  rewrite Nat.add_1_r. rewrite decide_True by lia. simpl.
  rewrite decide_True by done. simpl. by rewrite delete_insert_eq.
Qed.

Lemma on_outcome_IsCompleted w job f pending todo st :
  result f ≠ Success →
  IsCompleted (on_outcome w job f pending todo st) = IsCompleted st.
Proof.
  unfold on_outcome. destruct (result f); [done|..]; intros _; simpl;
    repeat case_decide; rewrite ?WriteJson_IsCompleted; simpl;
    repeat case_decide; done.
Qed.

(* ===================================================================== *)
(** * What a single step can do, from any state *)
(* ===================================================================== *)

Lemma step_pool_sublist w st : proxy_list (step w st) `sublist_of` proxy_list st.
Proof.
  unfold step.
  destruct (pc st) as [|[|job todo]|job [|f pending] todo|b|]; simpl; try done.
  - by destruct (proxy_list st) eqn:Hps; simpl; rewrite ?Hps.
  - by destruct (Lock_locked _ _ _).
  - unfold on_outcome. destruct (result f); simpl.
    + by case_decide.
    + case_decide; simpl; [|done].
      rewrite WriteJson_proxy_list. apply remove_first_sublist.
    + case_decide; simpl; [|done]. rewrite WriteJson_proxy_list. simpl.
      case_decide; simpl; [apply remove_first_sublist|done].
Qed.

Lemma run_pool_sublist w k st : proxy_list (run w k st) `sublist_of` proxy_list st.
Proof.
  induction k as [|k IH]; [done|]. rewrite run_S.
  etrans; [apply step_pool_sublist|done].
Qed.

Lemma step_completed_mono w st job :
  is_completed st job = true → is_completed (step w st) job = true.
Proof.
  unfold step, is_completed.
  destruct (pc st) as [|[|job' todo]|job' [|f pending] todo|b|]; simpl; try done.
  - by destruct (proxy_list st) eqn:Hps.
  - by destruct (Lock_locked _ _ _).
  - destruct (result f) eqn:Hf; [unfold on_outcome; rewrite Hf; simpl|..].
    + intros Hjob. case_decide; simpl;
        (destruct (decide (job' = job)) as [->|Hne];
         [ destruct (IsCompleted st !! job) as [b|] eqn:Hb; [|done];
           rewrite list_lookup_insert_eq; [done|by eapply lookup_lt_Some]
         | by rewrite list_lookup_insert_ne ]).
    + by rewrite on_outcome_IsCompleted by congruence.
    + by rewrite on_outcome_IsCompleted by congruence.
Qed.

Lemma run_completed_mono w k st job :
  is_completed st job = true → is_completed (run w k st) job = true.
Proof.
  intros Hjob. induction k as [|k IH]; [done|].
  rewrite run_S. by apply step_completed_mono.
Qed.

(* A proxy that is neither in the pool nor in the proxy file stays out of
   both. *)
Lemma step_absent w st proxy :
  proxy ∉ proxy_list st → proxy ∉ PROXY_FILE st →
  (proxy ∉ proxy_list (step w st)) ∧ (proxy ∉ PROXY_FILE (step w st)).
Proof.
  intros Hpool Hfile.
  split; [intros Hin; apply Hpool; eapply elem_of_sublist;
          [done|apply step_pool_sublist]|].
  unfold step.
  destruct (pc st) as [|[|job todo]|job [|f pending] todo|b|]; simpl; try done.
  - by destruct (proxy_list st).
  - by destruct (Lock_locked _ _ _).
  - unfold on_outcome. destruct (result f); simpl.
    + by case_decide.
    + case_decide; simpl; [|done]. rewrite WriteJson_PROXY_FILE.
      destruct (write_succeeds _ _ _ _); simpl; [|done].
      intros Hin%remove_first_elem. done.
    + case_decide; simpl; [|done]. rewrite WriteJson_PROXY_FILE.
      destruct (write_succeeds _ _ _ _); simpl; [|by case_decide].
      case_decide; simpl; [|done]. intros Hin%remove_first_elem. done.
Qed.

Lemma run_absent w k st proxy :
  proxy ∉ proxy_list st → proxy ∉ PROXY_FILE st →
  (proxy ∉ proxy_list (run w k st)) ∧ (proxy ∉ PROXY_FILE (run w k st)).
Proof.
  intros Hpool Hfile. induction k as [|k [IH1 IH2]]; [done|].
  rewrite run_S. by apply step_absent.
Qed.

(* At a reachable point of a round the proxy of the next future is in the
   pool. *)
Lemma pending_in_pool proxies outputs st job f pending todo :
  Inv proxies outputs st → pc st = InRound job (f :: pending) todo →
  proxy_of f ∈ proxy_list st.
Proof.
  intros HInv Hpc. pose proof (inv_pc _ _ _ HInv) as Hok.
  unfold pc_ok in Hok. rewrite Hpc in Hok. destruct Hok as (_ & _ & Hpend).
  eapply elem_of_submseteq; [|done]. rewrite fmap_cons. left.
Qed.

(* ===================================================================== *)
(** * The claims *)
(* ===================================================================== *)

(** C10. The proxy pool only shrinks during a run: at every point of the
    run the current proxy list is an order-preserving sublist of the list at
    any earlier point, and so of the list loaded by getProxyList at the
    start; no proxy is ever inserted. *)
Theorem pool_only_shrinks w proxies file outputs n k :
  let init := Init proxies file outputs in
  proxy_list (run w (n + k) init) `sublist_of` proxy_list (run w n init) ∧
  proxy_list (run w n init) `sublist_of` proxies.
Proof.
  simpl. split.
  - rewrite run_add. apply run_pool_sublist.
  - apply (run_pool_sublist w n (Init proxies file outputs)).
Qed.

(** C8. The completed flag of a job is monotone: a job that is completed at
    some point of a run is completed at every later point, and over the
    whole run the assignment job.IsCompleted = True is executed at most once
    for each job. *)
Theorem completed_flag_latched w proxies file outputs n k job :
  let init := Init proxies file outputs in
  (is_completed (run w n init) job = true →
   is_completed (run w (n + k) init) job = true) ∧
  times_marked (run w (n + k) init) job ≤ 1.
Proof.
  simpl. split.
  - rewrite run_add. apply run_completed_mono.
  - apply (inv_marks proxies outputs), run_Inv.
Qed.

Lemma completed_flag_latched_witness :
  is_completed (run world_AB 7 (Init [pA; pB] [pA; pB] [false; false])) 0 = true ∧
  is_completed (run world_AB (7 + 20) (Init [pA; pB] [pA; pB] [false; false])) 0
    = true.
Proof.
  assert (is_completed (run world_AB 7 (Init [pA; pB] [pA; pB] [false; false])) 0
          = true) as H7 by (vm_compute; reflexivity).
  split; [exact H7|].
  exact (proj1 (completed_flag_latched world_AB [pA; pB] [pA; pB]
                  [false; false] 7 20 0) H7).
Defined.

Lemma all_outputs_Init proxies file outputs :
  (∀ job, job < length outputs → isfile outputs job = true) →
  pc (Init proxies file outputs) = Returned true.
Proof.
  intros Hall. unfold Init. simpl.
  destruct (filter _ _) as [|job incomplete] eqn:Hfilter; [done|].
  assert (job ∈ filter (λ job, negb (isfile outputs job)) (seq 0 (length outputs)))
    as [Hf Hs]%list_elem_of_filter by (rewrite Hfilter; left).
  apply elem_of_seq in Hs. rewrite Hall in Hf by lia. done.
Qed.

(** C7. A job whose output file exists when the launcher starts is never
    handed to the work function, at any point of the run; and if the output
    of every job exists, the launcher returns true at once, without a
    single step and without any effect. *)
Theorem existing_output_never_uploaded w proxies file outputs :
  (∀ n job proxy, isfile outputs job = true →
     Upload job proxy ∉ trace (run w n (Init proxies file outputs))) ∧
  ((∀ job, job < length outputs → isfile outputs job = true) →
   ∀ fuel, WebScrapingJobLauncher w fuel proxies file outputs = Some (Return true) ∧
           trace (run w fuel (Init proxies file outputs)) = []).
Proof.
  split.
  - intros n job proxy Hfile Hin.
    apply (inv_upload proxies outputs _ (run_Inv w proxies file outputs n)) in Hin.
    congruence.
  - intros Hall fuel. pose proof (all_outputs_Init proxies file outputs Hall) as Hpc.
    unfold WebScrapingJobLauncher. rewrite (run_Returned w fuel _ true Hpc), Hpc.
    done.
Qed.

Lemma existing_output_never_uploaded_witness :
  isfile [true; false] 0 = true ∧
  (Upload 0 pB ∉ trace (run world_AB 9 (Init [pA; pB] [pA; pB] [true; false]))) ∧
  (∀ job, job < length [true; true] → isfile [true; true] job = true) ∧
  WebScrapingJobLauncher world_AB 0 [pA; pB] [pA; pB] [true; true]
    = Some (Return true).
Proof.
  assert (∀ job, job < length [true; true] → isfile [true; true] job = true)
    as Hall.
  { intros [|[|job]] Hjob; [reflexivity|reflexivity|simpl in Hjob; lia]. }
  split; [reflexivity|]. split.
  - exact (proj1 (existing_output_never_uploaded world_AB [pA; pB] [pA; pB]
                    [true; false]) 9 0 pB eq_refl).
  - split; [exact Hall|].
    exact (proj1 (proj2 (existing_output_never_uploaded world_AB [pA; pB] [pA; pB]
                           [true; true]) Hall 0)).
Defined.






(** C4, as amended. When the launcher handles an attempt that returned
    PageConnectionError (it reads the outcomes of a round in the order in
    which the attempts finish, and only up to the first Success), the proxy
    of that attempt (a proxy of the pool,
    which getProxyList loaded without duplicates) is removed from the pool:
    from the next step on it is never again in the pool, and it is not among
    the proxies of the futures of any round, running or started later.  The
    write succeeding, the proxy file holds the new pool right after that
    step, so before any other round starts, the round goes on, and the proxy
    is never again in the proxy file. *)
Theorem connection_error_evicts w proxies file outputs n job f pending todo :
  let st := run w n (Init proxies file outputs) in
  let st1 := run w (S n) (Init proxies file outputs) in
  NoDup proxies →
  pc st = InRound job (f :: pending) todo →
  result f = PageConnectionError →
  proxy_of f ∈ proxy_list st ∧
  (∀ k, let st' := run w (S n + k) (Init proxies file outputs) in
        (proxy_of f ∉ proxy_list st') ∧
        ∀ job' pending' todo', pc st' = InRound job' pending' todo' →
                               proxy_of f ∉ proxy_of <$> pending') ∧
  (write_succeeds w (sweeps st) job (slot f) = true →
   PROXY_FILE st1 = proxy_list st1 ∧
   pc st1 = InRound job pending todo ∧
   ∀ k, proxy_of f ∉ PROXY_FILE (run w (S n + k) (Init proxies file outputs))).
Proof.
  cbv zeta. intros Hnodup Hpc Hf.
  pose proof (run_Inv w proxies file outputs n) as HInv.
  pose proof (pending_in_pool _ _ _ _ _ _ _ HInv Hpc) as Hin.
  assert (NoDup (proxy_list (run w n (Init proxies file outputs)))) as Hnd
    by (eapply sublist_NoDup; [done|apply (inv_pool _ _ _ HInv)]).
  assert (run w (S n) (Init proxies file outputs) =
          then_goto (InRound job pending todo)
            (WriteJson
               (write_succeeds w (sweeps (run w n (Init proxies file outputs)))
                  job (slot f))
               (set_proxy_list
                  (remove_first (proxy_of f)
                     (proxy_list (run w n (Init proxies file outputs))))
                  (run w n (Init proxies file outputs))))) as Hstep.
  { rewrite run_S, (step_InRound _ _ _ _ _ _ Hpc).
    by rewrite on_outcome_ConnectionError. }
  assert (proxy_of f ∉ proxy_list (run w (S n) (Init proxies file outputs)))
    as Hp1.
  { rewrite Hstep, WriteJson_proxy_list. simpl. by apply remove_first_not_elem. }
  assert (∀ k, proxy_of f
               ∉ proxy_list (run w (S n + k) (Init proxies file outputs))) as Hpk.
  { intros k Hk. apply Hp1. rewrite run_add in Hk.
    eapply elem_of_sublist; [done|apply run_pool_sublist]. }
  split_and!; [done| |].
  - intros k. split; [done|].
    intros job' pending' todo' Hpc' Hpend. apply (Hpk k).
    pose proof (run_Inv w proxies file outputs (S n + k)) as HInv'.
    pose proof (inv_pc _ _ _ HInv') as Hok'. unfold pc_ok in Hok'.
    rewrite Hpc' in Hok'. destruct Hok' as (_ & _ & Hsub).
    by eapply elem_of_submseteq.
  - intros Hok. rewrite Hok in Hstep.
    assert (proxy_of f ∉ PROXY_FILE (run w (S n) (Init proxies file outputs)))
      as Hf1 by (rewrite Hstep; simpl; by apply remove_first_not_elem).
    split_and!; [by rewrite Hstep|by rewrite Hstep|].
    intros k. rewrite run_add. by apply run_absent.
Qed.

Lemma connection_error_evicts_witness :
  PROXY_FILE (run world_AB 3 (Init [pA; pB] [pA; pB] [false; false]))
    = proxy_list (run world_AB 3 (Init [pA; pB] [pA; pB] [false; false])) ∧
  (pA ∉ proxy_list (run world_AB (3 + 10) (Init [pA; pB] [pA; pB] [false; false]))) ∧
  (pA ∉ PROXY_FILE (run world_AB (3 + 10) (Init [pA; pB] [pA; pB] [false; false]))).
Proof.
  destruct (connection_error_evicts world_AB [pA; pB] [pA; pB] [false; false] 2 0
              (mkFuture 0 pA PageConnectionError) [mkFuture 1 pB Success] [1])
    as (_ & Hpool & Hwrite).
  - apply (bool_decide_unpack _). vm_compute. exact I.
  - vm_compute. reflexivity.
  - reflexivity.
  - destruct Hwrite as (Hfile & _ & Hlater); [vm_compute; reflexivity|].
    split; [exact Hfile|]. split; [exact (proj1 (Hpool 10))|exact (Hlater 10)].
Defined.

(** C4, counterexample. Two proxies, three jobs; in every round proxy B
    finishes first with Success and proxy A afterwards with
    PageConnectionError.  The round ends on the Success, the outcome of
    proxy A is never read: after the round of job 0 proxy A is still in the
    pool and the proxy file is as it was, proxy A is among the proxies of
    the rounds of job 1 and of job 2, and after the three rounds, proxy A
    having failed to connect three times, nothing has been written and pool
    and file still hold it. *)
Lemma connection_error_unread_counterexample :
  uploadFunction world_B_first 0 0 0 pA = PageConnectionError ∧
  pc (run world_B_first 2 (Init [pA; pB] [pA; pB] [false; false; false]))
    = InRound 0 [mkFuture 1 pB Success; mkFuture 0 pA PageConnectionError]
        [1; 2] ∧
  pc (run world_B_first 3 (Init [pA; pB] [pA; pB] [false; false; false]))
    = InSweep [1; 2] ∧
  proxy_list (run world_B_first 3 (Init [pA; pB] [pA; pB] [false; false; false]))
    = [pA; pB] ∧
  PROXY_FILE (run world_B_first 3 (Init [pA; pB] [pA; pB] [false; false; false]))
    = [pA; pB] ∧
  pc (run world_B_first 4 (Init [pA; pB] [pA; pB] [false; false; false]))
    = InRound 1 [mkFuture 1 pB Success; mkFuture 0 pA PageConnectionError]
        [2] ∧
  pc (run world_B_first 6 (Init [pA; pB] [pA; pB] [false; false; false]))
    = InRound 2 [mkFuture 1 pB Success; mkFuture 0 pA PageConnectionError]
        [] ∧
  trace (run world_B_first 7 (Init [pA; pB] [pA; pB] [false; false; false]))
    = [Upload 0 pA; Upload 0 pB; SetCompleted 0;
       Upload 1 pA; Upload 1 pB; SetCompleted 1;
       Upload 2 pA; Upload 2 pB; SetCompleted 2] ∧
  proxy_list (run world_B_first 7 (Init [pA; pB] [pA; pB] [false; false; false]))
    = [pA; pB] ∧
  PROXY_FILE (run world_B_first 7 (Init [pA; pB] [pA; pB] [false; false; false]))
    = [pA; pB].
Proof. split_and!; vm_compute; reflexivity. Qed.

(** C5, as amended. When the launcher handles an attempt that returned
    GenericError (it reads the outcomes of a round in the order in which the
    attempts finish, and only up to the first Success),
    the failure count of the proxy (0 when it has no entry) is below the
    ceiling MAX_RETRIES = 3 and goes up by one.  If the new count is still
    below the ceiling, the entry holds it and the pool, which contains the
    proxy, and the proxy file are unchanged, so the proxy is tried again in
    the rounds that follow.  If the new count is the ceiling, the proxy is
    removed from the pool (loaded without duplicates, so it is gone), its
    entry is deleted, and, the write succeeding, the proxy file holds the new
    pool and the round goes on. *)
Theorem generic_error_tally w proxies file outputs n job f pending todo :
  let st := run w n (Init proxies file outputs) in
  let st1 := run w (S n) (Init proxies file outputs) in
  let key := proxy_str (proxy_of f) in
  let t := default 0 (proxy_failures st !! key) in
  NoDup proxies →
  pc st = InRound job (f :: pending) todo →
  result f = GenericError →
  t < MAX_RETRIES ∧ proxy_of f ∈ proxy_list st ∧
  (S t < MAX_RETRIES →
     proxy_failures st1 = <[key := S t]> (proxy_failures st) ∧
     proxy_list st1 = proxy_list st ∧ PROXY_FILE st1 = PROXY_FILE st ∧
     pc st1 = InRound job pending todo) ∧
  (S t = MAX_RETRIES →
     proxy_list st1 = remove_first (proxy_of f) (proxy_list st) ∧
     (proxy_of f ∉ proxy_list st1) ∧
     proxy_failures st1 = delete key (proxy_failures st) ∧
     proxy_failures st1 !! key = None ∧
     (write_succeeds w (sweeps st) job (slot f) = true →
      PROXY_FILE st1 = proxy_list st1 ∧ pc st1 = InRound job pending todo)).
Proof.
  cbv zeta. intros Hnodup Hpc Hf.
  pose proof (run_Inv w proxies file outputs n) as HInv.
  pose proof (pending_in_pool _ _ _ _ _ _ _ HInv Hpc) as Hin.
  assert (NoDup (proxy_list (run w n (Init proxies file outputs)))) as Hnd
    by (eapply sublist_NoDup; [done|apply (inv_pool _ _ _ HInv)]).
  split_and!; [|done|..].
  - destruct (proxy_failures _ !! _) as [v|] eqn:Hv; simpl.
    + apply (inv_tally _ _ _ HInv) in Hv. lia.
    + unfold MAX_RETRIES. lia.
  - intros Hlt. rewrite run_S, (step_InRound _ _ _ _ _ _ Hpc).
    by rewrite on_outcome_GenericError_below.
  - intros Heq. rewrite run_S, (step_InRound _ _ _ _ _ _ Hpc).
    rewrite on_outcome_GenericError_ceiling by (done || lia).
    rewrite WriteJson_proxy_list, WriteJson_proxy_failures, WriteJson_PROXY_FILE,
      WriteJson_pc.
    simpl. split_and!; [done| |done| |].
    + by apply remove_first_not_elem.
    + apply lookup_delete_eq.
    + by intros ->.
Qed.

Lemma generic_error_tally_witness :
  (* second failure of proxy A: it stays *)
  proxy_list (run world_generic 6 (Init [pA] [pA] [false; false])) = [pA] ∧
  proxy_failures (run world_generic 6 (Init [pA] [pA] [false; false]))
    !! proxy_str pA = Some 2 ∧
  (* third failure: it goes, and so does its entry *)
  (pA ∉ proxy_list (run world_generic 11 (Init [pA] [pA] [false; false]))) ∧
  proxy_failures (run world_generic 11 (Init [pA] [pA] [false; false]))
    !! proxy_str pA = None.
Proof.
  assert (NoDup [pA]) as Hnd by (apply (bool_decide_unpack _); vm_compute; exact I).
  destruct (generic_error_tally world_generic [pA] [pA] [false; false] 5 1
              (mkFuture 0 pA GenericError) [] [] Hnd)
    as (_ & _ & Hbelow & _); [vm_compute; reflexivity|reflexivity|].
  destruct Hbelow as (Htally & Hpool & _); [vm_compute; lia|].
  destruct (generic_error_tally world_generic [pA] [pA] [false; false] 10 0
              (mkFuture 0 pA GenericError) [] [1] Hnd)
    as (_ & _ & _ & Hceil); [vm_compute; reflexivity|reflexivity|].
  destruct Hceil as (_ & Hout & _ & Hnone & _); [vm_compute; reflexivity|].
  split_and!.
  - rewrite Hpool. vm_compute. reflexivity.
  - rewrite Htally. vm_compute. reflexivity.
  - exact Hout.
  - exact Hnone.
Defined.

(** C5, counterexample. Two proxies, three jobs; in every round proxy B
    finishes first with Success and proxy A afterwards with GenericError.
    The outcome of proxy A is never read: after the round of job 0 proxy A
    has no entry in the tally, and after the three rounds, proxy A having
    returned GenericError three times (the ceiling), the tally is still
    empty, proxy A is still in the pool and the proxy file has not been
    written. *)
Lemma generic_error_unread_counterexample :
  uploadFunction world_B_first_generic 0 0 0 pA = GenericError ∧
  pc (run world_B_first_generic 2
        (Init [pA; pB] [pA; pB] [false; false; false]))
    = InRound 0 [mkFuture 1 pB Success; mkFuture 0 pA GenericError] [1; 2] ∧
  pc (run world_B_first_generic 3
        (Init [pA; pB] [pA; pB] [false; false; false]))
    = InSweep [1; 2] ∧
  proxy_failures (run world_B_first_generic 3
                    (Init [pA; pB] [pA; pB] [false; false; false]))
    !! proxy_str pA = None ∧
  pc (run world_B_first_generic 4
        (Init [pA; pB] [pA; pB] [false; false; false]))
    = InRound 1 [mkFuture 1 pB Success; mkFuture 0 pA GenericError] [2] ∧
  pc (run world_B_first_generic 6
        (Init [pA; pB] [pA; pB] [false; false; false]))
    = InRound 2 [mkFuture 1 pB Success; mkFuture 0 pA GenericError] [] ∧
  trace (run world_B_first_generic 7
           (Init [pA; pB] [pA; pB] [false; false; false]))
    = [Upload 0 pA; Upload 0 pB; SetCompleted 0;
       Upload 1 pA; Upload 1 pB; SetCompleted 1;
       Upload 2 pA; Upload 2 pB; SetCompleted 2] ∧
  proxy_failures (run world_B_first_generic 7
                    (Init [pA; pB] [pA; pB] [false; false; false])) = ∅ ∧
  proxy_list (run world_B_first_generic 7
                (Init [pA; pB] [pA; pB] [false; false; false])) = [pA; pB] ∧
  PROXY_FILE (run world_B_first_generic 7
                (Init [pA; pB] [pA; pB] [false; false; false])) = [pA; pB].
Proof. split_and!; vm_compute; reflexivity. Qed.

(** C2, as amended. When the launcher handles an attempt that returned
    Success it changes neither the proxy pool nor the proxy file nor the
    failure counts: the entry of the proxy keeps the value it had. *)
Theorem success_leaves_pool_and_tally w st job f pending todo :
  pc st = InRound job (f :: pending) todo →
  result f = Success →
  proxy_list (step w st) = proxy_list st ∧
  PROXY_FILE (step w st) = PROXY_FILE st ∧
  proxy_failures (step w st) = proxy_failures st.
Proof.
  intros Hpc Hf. rewrite (step_InRound _ _ _ _ _ _ Hpc).
  destruct (on_outcome_Success w job f pending todo st Hf) as (? & ? & ? & _).
  done.
Qed.

Lemma success_leaves_pool_and_tally_witness :
  proxy_failures (step world_flaky (run world_flaky 10 (Init [pA] [pA] [false; false])))
    = proxy_failures (run world_flaky 10 (Init [pA] [pA] [false; false])).
Proof.
  refine (proj2 (proj2 (success_leaves_pool_and_tally world_flaky
            (run world_flaky 10 (Init [pA] [pA] [false; false]))
            0 (mkFuture 0 pA Success) [] [1] _ _))).
  - vm_compute. reflexivity.
  - reflexivity.
Defined.

(** C2, counterexample. Proxy A fails twice with a generic error during the
    first pass over two jobs; in the second pass its attempt for job 0
    succeeds.  Its failure count is 2 before the launcher handles the
    success and still 2 afterwards: it is not reset to zero. *)
Lemma success_resets_tally_counterexample :
  pc (run world_flaky 10 (Init [pA] [pA] [false; false]))
    = InRound 0 [mkFuture 0 pA Success] [1] ∧
  proxy_failures (run world_flaky 10 (Init [pA] [pA] [false; false]))
    !! proxy_str pA = Some 2 ∧
  proxy_failures (run world_flaky 11 (Init [pA] [pA] [false; false]))
    !! proxy_str pA = Some 2 ∧
  default 0 (proxy_failures (run world_flaky 11 (Init [pA] [pA] [false; false]))
               !! proxy_str pA) ≠ 0.
Proof. split_and!; vm_compute; first [reflexivity|discriminate]. Qed.

(** C3, as amended. Once the launcher has handled the first Success of a
    round, the round is over: the job is marked completed, the launcher goes
    on with the next job, and the outcomes of the attempts that had not been
    handled yet are dropped.  Pool, proxy file and failure counts are as
    before the Success, and the state does not depend on what the remaining
    attempts returned. *)
Theorem stragglers_discarded w st job f pending pending' todo :
  pc st = InRound job (f :: pending) todo →
  result f = Success →
  pc (step w st) = InSweep todo ∧
  IsCompleted (step w st) = <[job := true]> (IsCompleted st) ∧
  proxy_list (step w st) = proxy_list st ∧
  PROXY_FILE (step w st) = PROXY_FILE st ∧
  proxy_failures (step w st) = proxy_failures st ∧
  step w (goto (InRound job (f :: pending') todo) st) = step w st.
Proof.
  intros Hpc Hf. rewrite (step_InRound _ _ _ _ _ _ Hpc).
  destruct (on_outcome_Success w job f pending todo st Hf)
    as (Hpool & Hfile & Htally & Hflags & Hnext).
  split_and!; [done..|].
  rewrite (step_InRound w (goto _ st) job f pending' todo) by done.
  unfold on_outcome. rewrite Hf. simpl. by case_decide.
Qed.

Lemma stragglers_discarded_witness :
  pc (step world_B_first
        (run world_B_first 2 (Init [pA; pB] [pA; pB] [false; false])))
    = InSweep [1] ∧
  proxy_list (step world_B_first
                (run world_B_first 2 (Init [pA; pB] [pA; pB] [false; false])))
    = proxy_list (run world_B_first 2 (Init [pA; pB] [pA; pB] [false; false])).
Proof.
  destruct (stragglers_discarded world_B_first
              (run world_B_first 2 (Init [pA; pB] [pA; pB] [false; false]))
              0 (mkFuture 1 pB Success) [mkFuture 0 pA PageConnectionError] [] [1])
    as (Hnext & _ & Hpool & _).
  - vm_compute. reflexivity.
  - reflexivity.
  - split; [exact Hnext|exact Hpool].
Defined.

(** C3, counterexample. Two proxies, two jobs; in the round of job 0 proxy B
    finishes first with Success and proxy A afterwards with
    PageConnectionError.  After the round proxy A is still in the pool, the
    proxy file is untouched and nothing has been counted, and proxy A is
    handed to the work function again in the round of job 1. *)
Lemma stragglers_applied_counterexample :
  pc (run world_B_first 2 (Init [pA; pB] [pA; pB] [false; false]))
    = InRound 0 [mkFuture 1 pB Success; mkFuture 0 pA PageConnectionError] [1] ∧
  pc (run world_B_first 3 (Init [pA; pB] [pA; pB] [false; false])) = InSweep [1] ∧
  proxy_list (run world_B_first 3 (Init [pA; pB] [pA; pB] [false; false]))
    = [pA; pB] ∧
  trace (run world_B_first 3 (Init [pA; pB] [pA; pB] [false; false]))
    = [Upload 0 pA; Upload 0 pB; SetCompleted 0] ∧
  trace (run world_B_first 4 (Init [pA; pB] [pA; pB] [false; false]))
    = [Upload 0 pA; Upload 0 pB; SetCompleted 0; Upload 1 pA; Upload 1 pB].
Proof. split_and!; vm_compute; reflexivity. Qed.

(* ===================================================================== *)
(** * Failing writes *)
(* ===================================================================== *)





(* ===================================================================== *)
(** * The value returned, and the runs that do not return *)
(* ===================================================================== *)

(* Whenever the launcher returns, it returns true exactly if every job ended
   completed, and exactly if no job is left incomplete. *)
Lemma returned_value_sound w fuel proxies file outputs b :
  WebScrapingJobLauncher w fuel proxies file outputs = Some (Return b) →
  b = forallb (ended_completed outputs (run w fuel (Init proxies file outputs)))
        (seq 0 (length outputs)) ∧
  b = bool_decide (incomplete_jobs (run w fuel (Init proxies file outputs)) = []).
Proof.
  unfold WebScrapingJobLauncher. intros Hret.
  pose proof (inv_pc _ _ _ (run_Inv w proxies file outputs fuel)) as Hok.
  unfold pc_ok in Hok.
  destruct (pc (run w fuel (Init proxies file outputs))); try done.
  injection Hret as ->. by destruct Hok.
Qed.

(* Past the start, a launcher with no incomplete job left only alternates
   between the while test and the sleep. *)
Lemma all_done_step w proxies outputs st :
  Inv proxies outputs st → incomplete_jobs st = [] → running st = true →
  incomplete_jobs (step w st) = [] ∧ running (step w st) = true ∧
  IsCompleted (step w st) = IsCompleted st.
Proof.
  intros HInv Hjobs Hrun. pose proof (inv_pc _ _ _ HInv) as Hok.
  unfold pc_ok in Hok. unfold step, running in *.
  destruct (pc st) as [|[|job todo]|job pending todo|b|] eqn:Hst; [..|done|done].
  - destruct Hok as [Hps|?]; [|done].
    destruct (proxy_list st); [done|]. by simpl.
  - by simpl.
  - destruct Hok as (_ & Hsub & _). rewrite Hjobs in Hsub.
    assert (job ∈ @nil nat) as Hnil by (apply Hsub; left).
    by apply elem_of_nil in Hnil.
  - destruct Hok as (_ & Hsub & _). rewrite Hjobs in Hsub.
    assert (job ∈ @nil nat) as Hnil by (apply Hsub; left).
    by apply elem_of_nil in Hnil.
Qed.

Lemma all_done_never_returns w proxies file outputs n k :
  let st := run w n (Init proxies file outputs) in
  incomplete_jobs st = [] → running st = true →
  WebScrapingJobLauncher w (n + k) proxies file outputs = None ∧
  IsCompleted (run w (n + k) (Init proxies file outputs)) = IsCompleted st.
Proof.
  cbv zeta. intros Hjobs Hrun.
  assert (incomplete_jobs (run w (n + k) (Init proxies file outputs)) = [] ∧
          running (run w (n + k) (Init proxies file outputs)) = true ∧
          IsCompleted (run w (n + k) (Init proxies file outputs))
            = IsCompleted (run w n (Init proxies file outputs)))
    as (_ & Hk & Hflags).
  { induction k as [|k (IH1 & IH2 & IH3)]; [by rewrite Nat.add_0_r|].
    rewrite Nat.add_succ_r, run_S.
    destruct (all_done_step w proxies outputs
                (run w (n + k) (Init proxies file outputs)))
      as (H1 & H2 & H3); [apply run_Inv|done|done|].
    split_and!; [done|done|congruence]. }
  split; [|done]. unfold WebScrapingJobLauncher. unfold running in Hk.
  by destruct (pc (run w (n + k) (Init proxies file outputs))).
Qed.

(** C1. One job without output, one proxy whose attempt succeeds: after
    three steps the job is marked completed and no job is left incomplete,
    so every job ended completed; yet the launcher returns nothing, however
    long it runs, because the while loop is left only when the pool is
    empty. *)
Theorem launcher_spins_after_last_success fuel :
  WebScrapingJobLauncher world_AB fuel [pB] [pB] [false] = None ∧
  IsCompleted (run world_AB (3 + fuel) (Init [pB] [pB] [false])) = [true] ∧
  forallb (ended_completed [false] (run world_AB (3 + fuel) (Init [pB] [pB] [false])))
    (seq 0 1) = true.
Proof.
  assert (∀ k, WebScrapingJobLauncher world_AB (3 + k) [pB] [pB] [false] = None ∧
               IsCompleted (run world_AB (3 + k) (Init [pB] [pB] [false])) = [true])
    as Hspin.
  { intros k.
    destruct (all_done_never_returns world_AB [pB] [pB] [false] 3 k) as [H1 H2];
      [vm_compute; reflexivity..|].
    split; [done|]. rewrite H2. vm_compute. reflexivity. }
  split_and!.
  - destruct fuel as [|[|[|k]]]; [vm_compute; reflexivity..|].
    apply (Hspin k).
  - apply Hspin.
  - unfold ended_completed, is_completed. rewrite (proj2 (Hspin fuel)). reflexivity.
Qed.

(* ===================================================================== *)
(** * Further properties of the launcher *)
(* ===================================================================== *)

Lemma step_Returned_inv w st b :
  pc (step w st) = Returned b →
  pc st = Returned b ∨
  (pc st = AtWhile ∧ proxy_list st = [] ∧ step w st = goto (Returned b) st).
Proof.
  unfold step.
  destruct (pc st) as [|[|job todo]|job [|f pending] todo|b'|] eqn:Hst; simpl;
    try done.
  - destruct (proxy_list st); simpl; [|done]. intros [= <-]. right. done.
  - by destruct (Lock_locked _ _ _).
  - unfold on_outcome. destruct (result f); simpl.
    + by case_decide.
    + case_decide; [|done]. rewrite WriteJson_pc. by destruct (write_succeeds _ _ _ _).
    + case_decide; [|done]. rewrite WriteJson_pc. by destruct (write_succeeds _ _ _ _).
  - rewrite ?Hst. intros [= <-]. by left.
  - rewrite ?Hst. done.
Qed.

(* A launcher that has returned true is still in its initial state; one that
   has returned false has an empty pool. *)
Lemma run_Returned_origin w proxies file outputs n b :
  pc (run w n (Init proxies file outputs)) = Returned b →
  if b then run w n (Init proxies file outputs) = Init proxies file outputs
  else proxy_list (run w n (Init proxies file outputs)) = [].
Proof.
  revert b. induction n as [|n IH]; intros b Hpc.
  - change (run w 0 (Init proxies file outputs)) with (Init proxies file outputs)
      in *.
    destruct b; [done|]. unfold Init in Hpc. simpl in Hpc.
    by destruct (filter _ _).
  - rewrite run_S in *.
    destruct (step_Returned_inv _ _ _ Hpc) as [Hprev|(Hprev & Hps & Hstep)].
    + rewrite (step_halted w (run w n (Init proxies file outputs)))
        by (unfold running; by rewrite Hprev).
      by apply IH.
    + pose proof (run_Inv w proxies file outputs (S n)) as HInv.
      pose proof (inv_pc _ _ _ HInv) as Hok. unfold pc_ok in Hok.
      rewrite run_S, Hpc in Hok. destruct Hok as [Hb _].
      pose proof (inv_pc _ _ _ (run_Inv w proxies file outputs n)) as Hok'.
      unfold pc_ok in Hok'. rewrite Hprev in Hok'.
      destruct Hok' as [?|Hjobs]; [done|].
      rewrite Hstep in Hb. simpl in Hb.
      rewrite bool_decide_eq_false_2 in Hb by done. subst b.
      rewrite Hstep. done.
Qed.

Lemma return_true_origin w fuel proxies file outputs :
  WebScrapingJobLauncher w fuel proxies file outputs = Some (Return true) →
  (∀ job, job < length outputs → isfile outputs job = true) ∧
  run w fuel (Init proxies file outputs) = Init proxies file outputs ∧
  trace (run w fuel (Init proxies file outputs)) = [].
Proof.
  unfold WebScrapingJobLauncher. intros Hret.
  destruct (pc (run w fuel (Init proxies file outputs))) as [| | |b|] eqn:Hpc;
    try done.
  injection Hret as ->.
  pose proof (run_Returned_origin w proxies file outputs fuel true Hpc) as Hinit.
  simpl in Hinit. rewrite Hinit in *. split_and!; [|done|done].
  intros job Hjob.
  destruct (isfile outputs job) eqn:Hfile; [done|].
  assert (job ∈ filter (λ job, negb (isfile outputs job)) (seq 0 (length outputs)))
    as Hin.
  { apply list_elem_of_filter. split; [by rewrite Hfile|]. apply elem_of_seq. lia. }
  unfold Init in Hpc. simpl in Hpc.
  destruct (filter _ _); [by apply elem_of_nil in Hin|done].
Qed.

(** X1. The launcher returns true only through the early return of line
    190: every job had its output file when the launcher started, and the
    launcher has done nothing at all (no upload, no write, no sleep; pool
    and proxy file as loaded). *)
Theorem returns_true_only_at_start w fuel proxies file outputs :
  WebScrapingJobLauncher w fuel proxies file outputs = Some (Return true) →
  (∀ job, job < length outputs → isfile outputs job = true) ∧
  run w fuel (Init proxies file outputs) = Init proxies file outputs ∧
  trace (run w fuel (Init proxies file outputs)) = [].
Proof. apply return_true_origin. Qed.

Lemma returns_true_only_at_start_witness :
  isfile [true; true] 1 = true ∧
  trace (run world_AB 5 (Init [pA; pB] [pA; pB] [true; true])) = [].
Proof.
  destruct (returns_true_only_at_start world_AB 5 [pA; pB] [pA; pB] [true; true])
    as (Hall & _ & Htrace).
  - vm_compute. reflexivity.
  - split; [apply Hall; simpl; lia|exact Htrace].
Defined.

(** X2. The launcher returns false only from line 233 with the pool used
    up: the pool is empty, and some job has neither an output file from
    before the start nor the completed mark. *)
Theorem returns_false_only_when_exhausted w fuel proxies file outputs :
  WebScrapingJobLauncher w fuel proxies file outputs = Some (Return false) →
  proxy_list (run w fuel (Init proxies file outputs)) = [] ∧
  ∃ job, job < length outputs ∧ isfile outputs job = false ∧
         is_completed (run w fuel (Init proxies file outputs)) job = false.
Proof.
  unfold WebScrapingJobLauncher. intros Hret.
  destruct (pc (run w fuel (Init proxies file outputs))) as [| | |b|] eqn:Hpc;
    try done.
  injection Hret as ->.
  split; [apply (run_Returned_origin w proxies file outputs fuel false Hpc)|].
  pose proof (run_Inv w proxies file outputs fuel) as HInv.
  pose proof (inv_pc _ _ _ HInv) as Hok. unfold pc_ok in Hok. rewrite Hpc in Hok.
  destruct Hok as [Hb _]. symmetry in Hb. apply bool_decide_eq_false_1 in Hb.
  destruct (incomplete_jobs (run w fuel (Init proxies file outputs)))
    as [|job jobs] eqn:Hjobs; [done|].
  exists job. apply (inv_incomplete _ _ _ HInv). rewrite Hjobs. left.
Qed.

Lemma returns_false_only_when_exhausted_witness :
  proxy_list (run world_generic 17 (Init [pA] [pA] [false; false])) = [].
Proof.
  refine (proj1 (returns_false_only_when_exhausted world_generic 17 [pA] [pA]
                   [false; false] _)).
  vm_compute. reflexivity.
Defined.

(** X3. The upload loop of the pipelines ends normally only on a call of the
    launcher that found the output of every job already there and did
    nothing; every call before it returned false, that is, ended with its
    pool empty.  A launcher call that completes its last job itself never
    ends the loop. *)
Theorem upload_loop_completes_on_idle_call env fuel rounds k calls :
  upload_loop env fuel rounds k = Some (UploadComplete calls) →
  k < calls ≤ k + rounds ∧
  (∀ job, job < length (launch_outputs (env (pred calls))) →
          isfile (launch_outputs (env (pred calls))) job = true) ∧
  (∀ j, k ≤ j < pred calls → launch fuel (env j) = Some (Return false)).
Proof.
  revert k. induction rounds as [|rounds IH]; intros k; simpl; [done|].
  destruct (launch fuel (env k)) as [[[|]|]|] eqn:Hk; try done.
  - intros [= <-]. simpl. split_and!; [lia|lia| |intros j ?; lia].
    apply (return_true_origin _ _ _ _ _ Hk).
  - intros Hloop. destruct (IH _ Hloop) as (Hcalls & Hall & Hbefore).
    split_and!; [lia|lia|done|].
    intros j Hj. destruct (decide (j = k)) as [->|Hne]; [done|].
    apply Hbefore. lia.
Qed.

Lemma upload_loop_completes_on_idle_call_witness :
  upload_loop
    (λ k, mkLaunch world_generic [pA] [pA] (if decide (k = 0) then [false] else [true]))
    20 5 0 = Some (UploadComplete 2) ∧
  launch 20 (mkLaunch world_generic [pA] [pA] [false]) = Some (Return false).
Proof.
  assert (upload_loop
            (λ k, mkLaunch world_generic [pA] [pA]
                    (if decide (k = 0) then [false] else [true]))
            20 5 0 = Some (UploadComplete 2)) as Hloop by (vm_compute; reflexivity).
  split; [exact Hloop|].
  apply (proj2 (proj2 (upload_loop_completes_on_idle_call _ _ _ _ _ Hloop)) 0).
  simpl. lia.
Defined.

Lemma step_sweeps_mono w st : sweeps st ≤ sweeps (step w st).
Proof.
  unfold step.
  destruct (pc st) as [|[|job todo]|job [|f pending] todo|b|]; simpl; try done.
  - by destruct (proxy_list st).
  - lia.
  - by destruct (Lock_locked _ _ _).
  - unfold on_outcome. destruct (result f); simpl; repeat case_decide; simpl;
      try done; by destruct (write_succeeds _ _ _ _); simpl; repeat case_decide.
Qed.

(* Where an upload in the trace comes from. *)
Lemma step_trace_Upload w st job proxy :
  Upload job proxy ∈ trace (step w st) →
  Upload job proxy ∈ trace st ∨
  (∃ todo, pc st = InSweep (job :: todo)) ∧
  Lock_locked w (sweeps st) job = false ∧ proxy ∈ proxy_list st.
Proof.
  unfold step.
  destruct (pc st) as [|[|job' todo]|job' [|f pending] todo|b|] eqn:Hst; simpl;
    try (by left).
  - destruct (proxy_list st); by left.
  - intros ?%elem_of_snoc_Upload; [by left|discriminate].
  - destruct (Lock_locked _ _ _) eqn:Hlock; simpl; [by left|].
    intros [?|Hin]%elem_of_app; [by left|].
    apply list_elem_of_fmap in Hin as (p & [= -> ->] & Hp). right. eauto.
  - unfold on_outcome. destruct (result f); simpl.
    + case_decide; simpl; (intros ?%elem_of_snoc_Upload; [by left|discriminate]).
    + case_decide; [|by left]. rewrite WriteJson_trace. simpl.
      intros ?%elem_of_snoc_Upload; [by left|by destruct (write_succeeds _ _ _ _)].
    + case_decide; [|by left]. rewrite WriteJson_trace. simpl.
      intros Hin%elem_of_snoc_Upload; [|by destruct (write_succeeds _ _ _ _)].
      left. by case_decide.
Qed.

(** X4. A job is handed to the work function only in a pass of the while
    loop in which its lock is free: as long as the lock of a job has been
    held in every pass so far, no attempt for that job has been submitted. *)
Theorem locked_job_is_skipped w proxies file outputs n job proxy :
  (∀ s, s ≤ sweeps (run w n (Init proxies file outputs)) →
        Lock_locked w s job = true) →
  Upload job proxy ∉ trace (run w n (Init proxies file outputs)).
Proof.
  induction n as [|n IH]; intros Hlocked.
  - change (run w 0 (Init proxies file outputs)) with (Init proxies file outputs).
    simpl. apply not_elem_of_nil.
  - rewrite run_S in *.
    pose proof (step_sweeps_mono w (run w n (Init proxies file outputs))) as Hmono.
    intros [Hin|(_ & Hfree & _)]%step_trace_Upload.
    + apply IH; [|done]. intros s Hs. apply Hlocked. lia.
    + rewrite Hlocked in Hfree by lia. done.
Qed.

Lemma locked_job_is_skipped_witness :
  Upload 0 pA ∉ trace (run (mkWorld (λ _ job, bool_decide (job = 0))
                              (λ _ _ _ _, GenericError) (λ _ _ i, i) (λ _ _ _, true))
                         12 (Init [pA] [pA] [false; false])).
Proof.
  apply locked_job_is_skipped. intros s _. reflexivity.
Defined.

(** X5. Every attempt the launcher submits is for a job of the job list and
    uses a proxy that getProxyList loaded at the start: no proxy comes from
    anywhere else. *)
Theorem uploads_use_loaded_proxies w proxies file outputs n job proxy :
  Upload job proxy ∈ trace (run w n (Init proxies file outputs)) →
  proxy ∈ proxies ∧ job < length outputs.
Proof.
  induction n as [|n IH].
  - change (run w 0 (Init proxies file outputs)) with (Init proxies file outputs).
    simpl. by intros ?%elem_of_nil.
  - rewrite run_S. intros [Hin|([todo Hpc] & _ & Hp)]%step_trace_Upload; [auto|].
    pose proof (run_Inv w proxies file outputs n) as HInv. split.
    + eapply elem_of_sublist; [done|apply (inv_pool _ _ _ HInv)].
    + pose proof (inv_pc _ _ _ HInv) as Hok. unfold pc_ok in Hok.
      rewrite Hpc in Hok. destruct Hok as (_ & Hsub & _).
      apply (inv_incomplete _ _ _ HInv), Hsub. left.
Qed.

Lemma uploads_use_loaded_proxies_witness :
  Upload 1 pB ∈ trace (run world_AB 9 (Init [pA; pB] [pA; pB] [false; false])) ∧
  pB ∈ [pA; pB].
Proof.
  assert (Upload 1 pB ∈ trace (run world_AB 9 (Init [pA; pB] [pA; pB] [false; false])))
    as Hin by (vm_compute; do 4 right; left).
  split; [exact Hin|].
  exact (proj1 (uploads_use_loaded_proxies world_AB [pA; pB] [pA; pB]
                  [false; false] 9 1 pB Hin)).
Defined.

Lemma remove_first_length_S {A} `{EqDecision A} (x : A) (l : list A) :
  x ∈ l → S (length (remove_first x l)) = length l.
Proof. intros Hx. by rewrite (remove_first_Permutation x l Hx) at 2. Qed.

Lemma writes_app tr1 tr2 : writes (tr1 ++ tr2) = writes tr1 + writes tr2.
Proof. unfold writes. by rewrite filter_app, length_app. Qed.

Lemma writes_Upload job (proxies : list Proxy) : writes (Upload job <$> proxies) = 0.
Proof. unfold writes. by induction proxies. Qed.

(** X6. Every eviction comes with exactly one call of WriteJson and nothing
    else calls it: at every point of a run, the proxies still in the pool
    and the writes of the proxy file made so far (succeeded or not) add up
    to the number of proxies loaded. *)
Theorem one_write_per_eviction w proxies file outputs n :
  length (proxy_list (run w n (Init proxies file outputs)))
  + writes (trace (run w n (Init proxies file outputs))) = length proxies.
Proof.
  induction n as [|n IH].
  - change (run w 0 (Init proxies file outputs)) with (Init proxies file outputs).
    simpl. unfold writes. simpl. lia.
  - rewrite run_S. pose proof (run_Inv w proxies file outputs n) as HInv.
    revert IH HInv. generalize (run w n (Init proxies file outputs)). intros st IH HInv.
    rewrite <- IH. unfold step.
    destruct (pc st) as [|[|job todo]|job [|f pending] todo|b|] eqn:Hst; simpl;
      try done.
    + by destruct (proxy_list st) eqn:Hps; simpl; rewrite ?Hps.
    + rewrite writes_app. unfold writes at 2. simpl. lia.
    + destruct (Lock_locked _ _ _); simpl; [done|].
      rewrite writes_app, writes_Upload. lia.
    + pose proof (pending_in_pool _ _ _ _ _ _ _ HInv Hst) as Hin.
      unfold on_outcome. destruct (result f); simpl.
      * case_decide; simpl; rewrite writes_app; unfold writes at 2; simpl; lia.
      * rewrite decide_True by done.
        rewrite WriteJson_proxy_list, WriteJson_trace, writes_app. simpl.
        rewrite <- (remove_first_length_S (proxy_of f) (proxy_list st)) by done.
        unfold writes at 2. destruct (write_succeeds _ _ _ _); simpl; lia.
      * case_decide; [|done].
        rewrite WriteJson_proxy_list, WriteJson_trace, writes_app. simpl.
        rewrite decide_True by done. simpl.
        rewrite <- (remove_first_length_S (proxy_of f) (proxy_list st)) by done.
        unfold writes at 2. destruct (write_succeeds _ _ _ _); simpl; lia.
Qed.

(** X7. When no write of the proxy file fails, the file mirrors the pool
    from the first eviction on: at every point of a run either nothing has
    been evicted yet (pool and file are as loaded) or the proxy file holds
    exactly the pool in memory. *)
Theorem file_mirrors_pool w proxies file outputs n :
  (∀ s job i, write_succeeds w s job i = true) →
  let st := run w n (Init proxies file outputs) in
  (proxy_list st = proxies ∧ PROXY_FILE st = file) ∨
  PROXY_FILE st = proxy_list st.
Proof.
  cbv zeta. intros Hdisk. induction n as [|n IH]; [by left|].
  rewrite run_S. revert IH. generalize (run w n (Init proxies file outputs)).
  intros st IH. unfold step.
  destruct (pc st) as [|[|job todo]|job [|f pending] todo|b|] eqn:Hst; simpl;
    try done.
  - by destruct (proxy_list st) eqn:Hps; simpl; rewrite ?Hps.
  - by destruct (Lock_locked _ _ _).
  - unfold on_outcome. destruct (result f); simpl.
    + by case_decide.
    + case_decide; [|done]. right.
      by rewrite WriteJson_proxy_list, WriteJson_PROXY_FILE, Hdisk.
    + case_decide; [|done]. right.
      by rewrite WriteJson_proxy_list, WriteJson_PROXY_FILE, Hdisk.
Qed.

Lemma file_mirrors_pool_witness :
  PROXY_FILE (run world_AB 9 (Init [pA; pB] [pA; pB; pA] [false; false]))
    = proxy_list (run world_AB 9 (Init [pA; pB] [pA; pB; pA] [false; false])).
Proof.
  destruct (file_mirrors_pool world_AB [pA; pB] [pA; pB; pA] [false; false] 9)
    as [[Hpool _]|Hfile].
  - intros s job i. reflexivity.
  - vm_compute in Hpool. discriminate Hpool.
  - exact Hfile.
Defined.

(* ===================================================================== *)
(** * SharePointDownloader: _sanitize_name *)
(* ===================================================================== *)

Lemma ascii_python_facts : PythonFacts ascii_python.
Proof.
  split.
  - reflexivity.
  - apply (bool_decide_unpack _). vm_compute. exact I.
  - intros c Hc. apply bool_decide_eq_true in Hc. unfold kept. simpl.
    apply orb_false_intro; apply bool_decide_eq_false; set_unfold; lia.
Qed.

Lemma kept_underscore py : PythonFacts py → kept py 95 = true.
Proof. intros Hpy. unfold kept. by rewrite (word_underscore py Hpy). Qed.

Lemma sub_runs_kept py in_run s :
  PythonFacts py → Forall (λ c, kept py c = true) (sub_runs py in_run s).
Proof.
  intros Hpy. revert in_run. induction s as [|c s IH]; intros in_run; simpl; [done|].
  destruct (kept py c) eqn:Hc; [by constructor|].
  destruct in_run; [done|]. constructor; [by apply kept_underscore|done].
Qed.

Lemma sub_runs_nonempty py s : s ≠ [] → sub_runs py false s ≠ [].
Proof. destruct s as [|c s]; [done|]. intros _. simpl. by destruct (kept py c). Qed.

Lemma sub_runs_id py in_run s :
  Forall (λ c, kept py c = true) s → sub_runs py in_run s = s.
Proof.
  intros Hs. revert in_run. induction Hs as [|c s Hc Hs IH]; intros in_run; simpl;
    [done|]. by rewrite Hc, IH.
Qed.

Lemma lstrip_id py s : Forall (λ c, isspace py c = false) s → lstrip py s = s.
Proof. destruct 1 as [|c s Hc Hs]; simpl; [done|]. by rewrite Hc. Qed.

Lemma strip_id py s : Forall (λ c, isspace py c = false) s → strip py s = s.
Proof.
  intros Hs. unfold strip, rstrip. rewrite (lstrip_id py s Hs).
  rewrite lstrip_id; [by rewrite reverse_involutive|].
  by apply Forall_reverse.
Qed.

Lemma kept_not_space py s :
  PythonFacts py → Forall (λ c, kept py c = true) s →
  Forall (λ c, isspace py c = false) s.
Proof.
  intros Hpy Hs. eapply Forall_impl; [done|]. intros c Hc. simpl in *.
  destruct (isspace py c) eqn:Hsp; [|done].
  by rewrite (space_not_kept py Hpy c Hsp) in Hc.
Qed.

Lemma unnamed_kept py :
  PythonFacts py → Forall (λ c, kept py c = true) (lit "unnamed").
Proof.
  intros Hpy. eapply Forall_impl; [apply (word_unnamed py Hpy)|].
  intros c Hc. unfold kept. by rewrite Hc.
Qed.

Lemma sanitize_name_kept py name :
  PythonFacts py →
  _sanitize_name py name ≠ [] ∧
  length (_sanitize_name py name) ≤ 120 ∧
  Forall (λ c, kept py c = true) (_sanitize_name py name).
Proof.
  intros Hpy. unfold _sanitize_name.
  pose proof (sub_runs_kept py false (strip py (default [] name)) Hpy) as Hkept.
  destruct (sub_runs py false (strip py (default [] name))) as [|c s] eqn:Hs.
  - split_and!; [done|simpl; lia|by apply unnamed_kept].
  - split_and!; [done|rewrite length_take; lia|by apply Forall_take].
Qed.

Lemma sanitize_name_fixed py name :
  PythonFacts py →
  _sanitize_name py (Some (_sanitize_name py name)) = _sanitize_name py name.
Proof.
  intros Hpy.
  destruct (sanitize_name_kept py name Hpy) as (Hne & Hlen & Hkept).
  revert Hne Hlen Hkept. generalize (_sanitize_name py name). intros s Hne Hlen Hkept.
  unfold _sanitize_name. simpl.
  rewrite strip_id by (by apply kept_not_space).
  rewrite sub_runs_id by done.
  destruct s as [|c s]; [done|]. by rewrite take_ge.
Qed.

(** X8. Whatever its argument (None and the empty string included),
    _sanitize_name returns a name that is not empty, has at most 120
    characters, and consists only of word characters and "-". *)
Theorem sanitize_name_shape py name :
  PythonFacts py →
  _sanitize_name py name ≠ [] ∧
  length (_sanitize_name py name) ≤ 120 ∧
  Forall (λ c, kept py c = true) (_sanitize_name py name).
Proof. apply sanitize_name_kept. Qed.

Lemma sanitize_name_shape_witness :
  _sanitize_name ascii_python (Some (lit "  Lezione 3: intro/part (a) ")) ≠ [] ∧
  _sanitize_name ascii_python (Some (lit "  Lezione 3: intro/part (a) "))
    = lit "Lezione_3_intro_part_a_".
Proof.
  split.
  - exact (proj1 (sanitize_name_shape ascii_python _ ascii_python_facts)).
  - vm_compute. reflexivity.
Defined.

(** X9. _sanitize_name changes nothing in a name it has produced: applied
    a second time it returns its argument.  load_sharepoint_jobs stores
    sanitized names and GetTranscriptDataFromSharedPoint sanitizes them
    again (line 321), so the file of a job carries the name the job was
    loaded under. *)
Theorem sanitize_name_idempotent py name :
  PythonFacts py →
  _sanitize_name py (Some (_sanitize_name py name)) = _sanitize_name py name.
Proof. apply sanitize_name_fixed. Qed.

Lemma sanitize_name_idempotent_witness :
  _sanitize_name ascii_python (Some (_sanitize_name ascii_python None))
    = lit "unnamed".
Proof.
  rewrite (sanitize_name_idempotent ascii_python None ascii_python_facts).
  vm_compute. reflexivity.
Defined.

(* ===================================================================== *)
(** * SharePointDownloader: load_sharepoint_jobs *)
(* ===================================================================== *)

Lemma for_each_inv {E X A} (P : A → Prop) (body : X → A → E + A) xs acc acc' :
  (∀ x a a', x ∈ xs → P a → body x a = inr a' → P a') →
  P acc → for_each body xs acc = inr acc' → P acc'.
Proof.
  revert acc. induction xs as [|x xs IH]; intros acc Hbody Hacc; simpl.
  - by intros [= <-].
  - destruct (body x acc) as [e|a] eqn:Hx; [done|].
    apply IH; [|by eapply Hbody; [left|..]].
    intros x' a1 a2 Hx'. apply Hbody. by right.
Qed.

Lemma add_job_names_ok py data_path name url acc acc' :
  names_ok acc → add_job py data_path name url acc = inr acc' → names_ok acc'.
Proof.
  intros [Hnd Hdom]. unfold add_job.
  set (clean := _sanitize_name py (Some (py_str py name))).
  destruct (name_to_source acc !! clean) as [other|] eqn:Hfresh; [done|].
  intros [= <-]. split; simpl.
  - rewrite fmap_app. simpl. apply NoDup_app. split_and!; [done| |apply NoDup_singleton].
    intros n Hn ->%list_elem_of_singleton. apply Hdom in Hn as [? Hn].
    by rewrite Hfresh in Hn.
  - intros n. rewrite fmap_app, elem_of_app, Hdom. simpl.
    rewrite list_elem_of_singleton, lookup_insert_is_Some. split.
    + intros [?|Heq]; [|by left].
      destruct (decide (clean = n)); [by left|by right].
    + intros [Heq|[_ ?]]; [by right|by left].
Qed.

Lemma add_item_names_ok py data_path item acc acc' :
  names_ok acc → add_item py data_path item acc = inr acc' → names_ok acc'.
Proof.
  intros Hacc. unfold add_item.
  destruct item as [| | | |[|name [|url items]]|members]; try done.
  - by apply add_job_names_ok.
  - destruct (member _ members); [|done]. destruct (member _ members); [|done].
    by apply add_job_names_ok.
Qed.

Lemma load_file_names_ok py file acc acc' :
  names_ok acc → load_file py file acc = inr acc' → names_ok acc'.
Proof.
  intros Hacc. unfold load_file.
  destruct (file.2) as [| |[| | | |items|members]]; try done.
  - apply for_each_inv; [|done]. intros x a a' _. apply add_item_names_ok.
  - apply for_each_inv; [|done]. intros x a a' _. apply add_job_names_ok.
Qed.

Lemma load_names_NoDup py candidates jobs :
  load_sharepoint_jobs py candidates = inr jobs → NoDup (job_name <$> jobs).
Proof.
  unfold load_sharepoint_jobs. destruct candidates as [|file candidates]; [done|].
  destruct (for_each _ _ _) as [e|acc] eqn:Hload; [done|]. intros [= <-].
  eapply (for_each_inv names_ok) in Hload as [Hnd _]; [done| |].
  - intros x a a' _. apply load_file_names_ok.
  - split; simpl; [apply NoDup_nil_2|]. intros name. rewrite lookup_empty.
    split; [by intros ?%elem_of_nil|by intros [? ?]].
Qed.

(** X10. When load_sharepoint_jobs returns, no two of the jobs it returns
    have the same name: two entries whose names are equal after
    sanitizing, in one file or in two, make it raise instead. *)
Theorem loaded_names_distinct py candidates jobs :
  load_sharepoint_jobs py candidates = inr jobs → NoDup (job_name <$> jobs).
Proof. apply load_names_NoDup. Qed.

Lemma loaded_names_distinct_witness :
  load_sharepoint_jobs ascii_python
    [(lit "a.json", Parsed (JObject [(lit "lesson 1", JString (lit "u1"));
                                      (lit "lesson 2", JString (lit "u2"))]))]
    = inr [mkJob (lit "lesson_1") (lit "u1"); mkJob (lit "lesson_2") (lit "u2")] ∧
  NoDup [lit "lesson_1"; lit "lesson_2"].
Proof.
  assert (load_sharepoint_jobs ascii_python
            [(lit "a.json", Parsed (JObject [(lit "lesson 1", JString (lit "u1"));
                                              (lit "lesson 2", JString (lit "u2"))]))]
          = inr [mkJob (lit "lesson_1") (lit "u1"); mkJob (lit "lesson_2") (lit "u2")])
    as Hload by (vm_compute; reflexivity).
  split; [exact Hload|].
  exact (loaded_names_distinct _ _ _ Hload).
Defined.

Lemma add_job_jobs py data_path name url acc acc' :
  add_job py data_path name url acc = inr acc' →
  loaded_jobs acc' = loaded_jobs acc ++ [job_of py (name, url)].
Proof.
  unfold add_job. destruct (name_to_source acc !! _); [done|]. by intros [= <-].
Qed.

Lemma add_item_jobs py data_path item acc acc' :
  add_item py data_path item acc = inr acc' →
  ∃ pair, item_pair item = Some pair ∧
          loaded_jobs acc' = loaded_jobs acc ++ [job_of py pair].
Proof.
  unfold add_item, item_pair.
  destruct item as [| | | |[|name [|url items]]|members]; try done.
  - intros ?%add_job_jobs. eauto.
  - destruct (member _ members); [|done]. destruct (member _ members); [|done].
    intros ?%add_job_jobs. eauto.
Qed.

Lemma load_file_jobs py file acc acc' :
  load_file py file acc = inr acc' →
  loaded_jobs acc' = loaded_jobs acc ++ (job_of py <$> file_pairs file.2) ∧
  length (file_pairs file.2) = entries file.2.
Proof.
  unfold load_file, file_pairs, entries.
  destruct (file.2) as [| |[| | | |items|members]]; try done.
  - revert acc. induction items as [|item items IH]; intros acc; simpl.
    + intros [= <-]. by rewrite app_nil_r.
    + destruct (add_item py file.1 item acc) as [e|a] eqn:Hitem; [done|].
      apply add_item_jobs in Hitem as (pair & -> & Hjobs).
      intros [Hrest Hlen]%IH. rewrite Hrest, Hjobs, <- app_assoc. simpl.
      split; [done|]. f_equal. exact Hlen.
  - revert acc. induction members as [|kv members IH]; intros acc; simpl.
    + intros [= <-]. by rewrite app_nil_r.
    + destruct (add_job py file.1 (JString kv.1) kv.2 acc) as [e|a] eqn:Hkv; [done|].
      apply add_job_jobs in Hkv.
      intros [Hrest Hlen]%IH. rewrite Hrest, Hkv, <- app_assoc. simpl.
      by rewrite !length_fmap.
Qed.

Lemma load_jobs_spec py candidates jobs :
  load_sharepoint_jobs py candidates = inr jobs →
  jobs = job_of py <$> (candidates ≫= λ file, file_pairs file.2) ∧
  length jobs = sum_list (entries <$> candidates.*2).
Proof.
  unfold load_sharepoint_jobs. destruct candidates as [|file0 candidates0]; [done|].
  generalize (file0 :: candidates0). intros candidates.
  destruct (for_each _ _ _) as [e|acc] eqn:Hload; [done|]. intros [= <-].
  assert (∀ acc0,
            for_each (load_file py) candidates acc0 = inr acc →
            loaded_jobs acc = loaded_jobs acc0
              ++ (job_of py <$> (candidates ≫= λ file, file_pairs file.2)) ∧
            length (candidates ≫= λ file, file_pairs file.2)
              = sum_list (entries <$> candidates.*2)) as Hgen.
  { clear Hload. induction candidates as [|file candidates IH]; intros acc0; simpl.
    - intros [= <-]. by rewrite app_nil_r.
    - destruct (load_file py file acc0) as [e|a] eqn:Hfile; [done|].
      apply load_file_jobs in Hfile as [Hfile Hlen].
      intros [Hrest Hsum]%IH. split.
      + by rewrite Hrest, Hfile, fmap_app, <- app_assoc.
      + rewrite length_app, Hlen. f_equal. exact Hsum. }
  destruct (Hgen _ Hload) as [Hjobs Hlen]. simpl in Hjobs.
  split; [done|]. by rewrite Hjobs, length_fmap.
Qed.

(** X11. When load_sharepoint_jobs returns, it returns one job for every
    entry of every file, in the order of the files and of their entries,
    each with the sanitized name and the url of its entry; nothing is
    dropped and every item of every list was of a supported form. *)
Theorem loaded_jobs_in_file_order py candidates jobs :
  load_sharepoint_jobs py candidates = inr jobs →
  jobs = job_of py <$> (candidates ≫= λ file, file_pairs file.2) ∧
  length jobs = sum_list (entries <$> candidates.*2).
Proof. apply load_jobs_spec. Qed.

Lemma load_names_fixed py candidates jobs :
  PythonFacts py →
  load_sharepoint_jobs py candidates = inr jobs →
  Forall (λ job, _sanitize_name py (Some (job_name job)) = job_name job) jobs.
Proof.
  intros Hpy [-> _]%load_jobs_spec. apply Forall_fmap, Forall_forall.
  intros pair _. simpl. by apply sanitize_name_fixed.
Qed.

Lemma loaded_jobs_in_file_order_witness :
  load_sharepoint_jobs ascii_python
    [(lit "1.json", Parsed (JArray [JArray [JString (lit "b"); JString (lit "u2")]]));
     (lit "2.json", Parsed (JObject [(lit "a", JString (lit "u1"))]))]
    = inr [mkJob (lit "b") (lit "u2"); mkJob (lit "a") (lit "u1")] ∧
  length [mkJob (lit "b") (lit "u2"); mkJob (lit "a") (lit "u1")] = 2.
Proof.
  assert (load_sharepoint_jobs ascii_python
    [(lit "1.json", Parsed (JArray [JArray [JString (lit "b"); JString (lit "u2")]]));
     (lit "2.json", Parsed (JObject [(lit "a", JString (lit "u1"))]))]
    = inr [mkJob (lit "b") (lit "u2"); mkJob (lit "a") (lit "u1")]) as Hload
    by (vm_compute; reflexivity).
  split; [exact Hload|].
  exact (proj2 (loaded_jobs_in_file_order _ _ _ Hload)).
Defined.

(* ===================================================================== *)
(** * SharePointDownloader: normalize_sharepoint_stream_url *)
(* ===================================================================== *)

Lemma iter_fixpoint {A} (f : A → A) n x : f x = x → Nat.iter n f x = x.
Proof. intros Hx. induction n as [|n IH]; simpl; [done|]. by rewrite IH. Qed.

Lemma unquote_until_stable_iter unquote n decoded :
  unquote_until_stable unquote n decoded = Nat.iter n unquote decoded.
Proof.
  revert decoded. induction n as [|n IH]; intros decoded; [done|].
  cbn [unquote_until_stable]. case_decide as Hfix.
  - by rewrite iter_fixpoint.
  - by rewrite IH, Nat.iter_succ_r.
Qed.

(** X12. The early exit of the decoding loop never changes its result: the
    value of the parameter "id" that normalize_sharepoint_stream_url encodes
    into the new query is always the first value of "id" percent-decoded
    three times over, also when the loop stops after one or two rounds. *)
Theorem id_is_unquoted_three_times lib url first others :
  dict_get (lit "id") (parse_qs lib (query (urlparse lib url)))
    = Some (first :: others) →
  normalize_sharepoint_stream_url lib url =
    geturl lib
      (replace_query (urlparse lib url)
         (urlencode lib
            (flatten
               (dict_set (lit "id")
                  [unquote lib (unquote lib (unquote lib first))]
                  (parse_qs lib (query (urlparse lib url))))))).
Proof.
  intros Hid. unfold normalize_sharepoint_stream_url. rewrite Hid.
  by rewrite unquote_until_stable_iter.
Qed.

(* ===================================================================== *)
(** * SharePointDownloader: _extract_int *)
(* ===================================================================== *)











(* ===================================================================== *)
(** * SharePointDownloader: _find_transcript_scroll_container *)
(* ===================================================================== *)

Lemma ancestor_S_front dom k el :
  ancestor dom (S k) el = parent_of dom el ≫= ancestor dom k.
Proof.
  induction k as [|k IH]; simpl.
  - by destruct (parent_of dom el).
  - simpl in IH. rewrite IH. by destruct (parent_of dom el).
Qed.

Lemma climb_spec dom n el found :
  climb dom n el = Some found ↔
  ∃ k, 1 ≤ k ≤ n ∧ ancestor dom k el = Some found ∧
       scrollable dom found = true ∧
       ∀ j, 1 ≤ j < k →
            ∃ a, ancestor dom j el = Some a ∧ scrollable dom a = false.
Proof.
  revert el. induction n as [|n IH]; intros el.
  - simpl. split; [done|]. intros (k & ? & _). lia.
  - cbn [climb]. destruct (parent_of dom el) as [parent|] eqn:Hparent.
    + destruct (scrollable dom parent) eqn:Hscroll.
      * split.
        -- intros [= <-]. exists 1. split_and!; [lia|lia| |done|intros; lia].
           simpl. by rewrite Hparent.
        -- intros (k & Hk & Hanc & Hfound & Hbelow).
           destruct (decide (k = 1)) as [->|Hne].
           ++ simpl in Hanc. rewrite Hparent in Hanc. done.
           ++ destruct (Hbelow 1) as (a & Ha & Hsa); [lia|].
              simpl in Ha. rewrite Hparent in Ha. congruence.
      * rewrite IH. split.
        -- intros (k & Hk & Hanc & Hfound & Hbelow). exists (S k).
           split_and!; [lia|lia| |done|].
           ++ rewrite ancestor_S_front, Hparent. done.
           ++ intros [|[|j]] Hj; [lia| |].
              ** exists parent. simpl. by rewrite Hparent.
              ** rewrite ancestor_S_front, Hparent. apply Hbelow. lia.
        -- intros (k & Hk & Hanc & Hfound & Hbelow).
           destruct k as [|k]; [lia|].
           rewrite ancestor_S_front, Hparent in Hanc. simpl in Hanc.
           destruct k as [|k].
           { simpl in Hanc. congruence. }
           exists (S k). split_and!; [lia|lia|done|done|].
           intros j Hj. destruct (Hbelow (S j)) as (a & Ha & Hsa); [lia|].
           rewrite ancestor_S_front, Hparent in Ha. eauto.
    + split; [done|]. intros (k & Hk & Hanc & _).
      destruct k as [|k]; [lia|].
      rewrite ancestor_S_front, Hparent in Hanc. done.
Qed.

(** X15. _find_transcript_scroll_container returns an element exactly when
    the first transcript row has a scrollable ancestor at most 35 levels up
    that is reached without an error, and the element returned is the
    nearest such ancestor: every ancestor below it is not scrollable. *)
Theorem scroll_container_is_nearest dom found :
  _find_transcript_scroll_container dom = Some found ↔
  ∃ el rows k,
    dom_rows dom = el :: rows ∧ 1 ≤ k ≤ 35 ∧
    ancestor dom k el = Some found ∧ scrollable dom found = true ∧
    ∀ j, 1 ≤ j < k →
         ∃ a, ancestor dom j el = Some a ∧ scrollable dom a = false.
Proof.
  unfold _find_transcript_scroll_container.
  destruct (dom_rows dom) as [|el rows].
  - split; [done|]. by intros (? & ? & ? & ? & _).
  - rewrite climb_spec. split.
    + intros (k & ?). exists el, rows, k. done.
    + intros (el' & rows' & k & [= <- <-] & ?). exists k. done.
Qed.

Lemma scroll_container_is_nearest_witness :
  _find_transcript_scroll_container
    (mkDom [7] (λ el, if decide (el = 0) then None else Some (pred el))
           (λ el, bool_decide (el ≤ 4))) = Some 4.
Proof.
  apply scroll_container_is_nearest. exists 7, [], 3.
  split_and!; [reflexivity|lia|lia|reflexivity|reflexivity|].
  intros [|[|[|j]]] Hj; [lia| | |lia].
  - exists 6. by split.
  - exists 5. by split.
Defined.

Lemma id_is_unquoted_three_times_witness :
  normalize_sharepoint_stream_url
    (mkUrllib (λ url, mkParseResult [] [] [] [] url [])
              query
              (λ q, [(lit "id", [q])])
              (λ s, match s with 37%N :: s' => s' | _ => s end)
              (λ flat, flat ≫= λ kv, match kv.2 with inl v => v | inr _ => [] end))
    (lit "%%%%a") = lit "%a".
Proof.
  rewrite (id_is_unquoted_three_times _ _ (lit "%%%%a") []) by reflexivity.
  vm_compute. reflexivity.
Defined.


(* ===================================================================== *)
(** * SharePointDownloader: strip *)
(* ===================================================================== *)

Lemma lstrip_suffix py s : lstrip py s `suffix_of` s.
Proof.
  induction s as [|c s IH]; simpl; [done|].
  destruct (isspace py c); [by apply suffix_cons_r|done].
Qed.

Lemma lstrip_head py s c s' : lstrip py s = c :: s' → isspace py c = false.
Proof.
  induction s as [|c0 s IH]; simpl; [done|].
  destruct (isspace py c0) eqn:Hc0; [done|]. by intros [= <- _].
Qed.

Lemma lstrip_fix py c s : isspace py c = false → lstrip py (c :: s) = c :: s.
Proof. intros Hc. simpl. by rewrite Hc. Qed.

Lemma lstrip_lstrip py s : lstrip py (lstrip py s) = lstrip py s.
Proof.
  destruct (lstrip py s) as [|c s'] eqn:Hs; [done|].
  apply lstrip_fix. by eapply lstrip_head.
Qed.

Lemma rstrip_prefix py s : rstrip py s `prefix_of` s.
Proof.
  apply prefix_suffix_reverse. unfold rstrip. rewrite reverse_involutive.
  apply lstrip_suffix.
Qed.

Lemma rstrip_rstrip py s : rstrip py (rstrip py s) = rstrip py s.
Proof. unfold rstrip. by rewrite reverse_involutive, lstrip_lstrip. Qed.

Lemma strip_strip py s : strip py (strip py s) = strip py s.
Proof.
  unfold strip.
  assert (lstrip py (rstrip py (lstrip py s)) = rstrip py (lstrip py s)) as ->;
    [|apply rstrip_rstrip].
  pose proof (rstrip_prefix py (lstrip py s)) as [k Hk].
  destruct (rstrip py (lstrip py s)) as [|c v]; [done|].
  apply lstrip_fix. eapply lstrip_head. by rewrite Hk.
Qed.

(* ===================================================================== *)
(** * SharePointDownloader: read_full_rows *)
(* ===================================================================== *)

Lemma parse_transcript_item_ok py page idx r :
  _parse_transcript_item py page idx = Some r → row_ok py idx r.
Proof.
  unfold _parse_transcript_item.
  destruct (sub_entry page idx) as [[|el sub]|]; simpl; try done.
  destruct (_safe_text py el) as [|c text] eqn:Htext; [done|].
  destruct (item_header page idx) as [header|]; simpl; [|done].
  destruct (header_timestamp page idx) as [ts|]; simpl; [|done].
  assert (row_ok py idx (mkRow idx (first_text py ts) [] (c :: text))
          → ∀ sp, row_ok py idx (mkRow idx (first_text py ts) sp (c :: text)))
    as Hany by (by intros (? & ? & ?) sp).
  assert (row_ok py idx (mkRow idx (first_text py ts) [] (c :: text))) as Hrow.
  { split_and!; [done|done|]. simpl. rewrite <- Htext. apply strip_strip. }
  destruct (first_text py header) as [|c' sp].
  - destruct (event_speaker page idx) as [ev|]; simpl; [|done].
    intros [= <-]. by apply Hany.
  - simpl. intros [= <-]. by apply Hany.
Qed.

Lemma scan_spec py page seen :
  seen_ok py seen → seen_ok py (scan py page seen) ∧ seen ⊆ scan py page seen.
Proof.
  unfold scan. generalize (merge_sort N.le (remove_dups
    (omap (λ sid, _extract_int py (Some sid)) (entry_ids page)))).
  intros indices. revert seen.
  induction indices as [|idx indices IH]; intros seen Hseen; simpl; [done|].
  destruct (seen !! idx) as [r|] eqn:Hidx; [by apply IH|].
  destruct (_parse_transcript_item py page idx) as [item|] eqn:Hitem; [|by apply IH].
  destruct (IH (<[idx := item]> seen)) as [Hok Hsub].
  - intros i r. destruct (decide (idx = i)) as [<-|Hne].
    + rewrite lookup_insert_eq. intros [= <-]. by eapply parse_transcript_item_ok.
    + rewrite lookup_insert_ne by done. apply Hseen.
  - split; [done|]. etrans; [|done]. by apply insert_subseteq.
Qed.

Lemma scroll_loop_spec py b stable_loops loops loop_i seen prev_count stable :
  seen_ok py seen →
  seen_ok py (scroll_loop py b stable_loops loops loop_i seen prev_count stable) ∧
  seen ⊆ scroll_loop py b stable_loops loops loop_i seen prev_count stable.
Proof.
  revert loop_i seen prev_count stable.
  induction loops as [|loops IH]; intros loop_i seen prev_count stable Hseen;
    simpl; [done|].
  destruct (out_of_time b loop_i); [done|].
  destruct (scan_spec py (page_at b loop_i) seen Hseen) as [Hok Hsub].
  case_decide; [done|].
  destruct (IH (S loop_i) (scan py (page_at b loop_i) seen)
              (size (scan py (page_at b loop_i) seen))
              (if decide (size (scan py (page_at b loop_i) seen) = prev_count)
               then S stable else 0) Hok) as [Hok' Hsub'].
  split; [done|]. by etrans.
Qed.

Lemma sorted_keys_spec (seen : gmap N Row) i :
  i ∈ merge_sort N.le (map_to_list seen).*1 ↔ is_Some (seen !! i).
Proof.
  rewrite merge_sort_Permutation, list_elem_of_fmap. split.
  - intros ([k r] & -> & Hin). apply elem_of_map_to_list in Hin. eauto.
  - intros [r Hr]. exists (i, r). split; [done|]. by apply elem_of_map_to_list.
Qed.

Lemma StronglySorted_le_lt (l : list N) :
  StronglySorted N.le l → NoDup l → StronglySorted N.lt l.
Proof.
  induction 1 as [|a l Hl IH Ha]; intros Hnd; [constructor|].
  apply NoDup_cons in Hnd as [Hin Hnd]. constructor; [by apply IH|].
  rewrite Forall_forall in *. intros x Hx. specialize (Ha x Hx).
  assert (a ≠ x) by (by intros ->). lia.
Qed.

Lemma rows_of_index py seen :
  seen_ok py seen →
  row_index <$> rows_of seen = merge_sort N.le (map_to_list seen).*1.
Proof.
  intros Hseen. unfold rows_of.
  assert (∀ i, i ∈ merge_sort N.le (map_to_list seen).*1 → is_Some (seen !! i))
    as Hkeys by (intros i; apply sorted_keys_spec).
  revert Hkeys.
  generalize (merge_sort N.le (map_to_list seen).*1). intros keys Hkeys.
  induction keys as [|k keys IH]; [done|]. simpl.
  destruct (Hkeys k) as [r Hr]; [left|]. rewrite Hr. simpl.
  rewrite (proj1 (Hseen k r Hr)). f_equal. apply IH.
  intros i Hi. apply Hkeys. by right.
Qed.

Lemma elem_of_rows_of (seen : gmap N Row) r :
  r ∈ rows_of seen ↔ ∃ i, seen !! i = Some r.
Proof.
  unfold rows_of. rewrite list_elem_of_omap. split.
  - intros (i & _ & Hi). eauto.
  - intros (i & Hi). exists i. split; [|done]. apply sorted_keys_spec. eauto.
Qed.

Lemma read_full_rows_texts py b max_loops stable_loops rows :
  read_full_rows py b max_loops stable_loops = Some rows →
  Forall (λ r, row_text r ≠ [] ∧ strip py (row_text r) = row_text r) rows.
Proof.
  unfold read_full_rows. destruct (wait_entries b); [|done]. intros [= <-].
  destruct (scroll_loop_spec py b stable_loops max_loops 0 ∅ 0 0) as [Hok _].
  { intros idx r. by rewrite lookup_empty. }
  rewrite Forall_forall. intros r [i Hi]%elem_of_rows_of.
  destruct (Hok i r Hi) as (_ & ? & ?). done.
Qed.

(** X16. The rows read_full_rows returns are in strictly increasing order
    of their "index" (so no row number comes twice), and every one of them
    has a text that is not empty and has no white space at its ends. *)
Theorem read_full_rows_sorted py b max_loops stable_loops rows :
  read_full_rows py b max_loops stable_loops = Some rows →
  StronglySorted N.lt (row_index <$> rows) ∧
  Forall (λ r, row_text r ≠ [] ∧ strip py (row_text r) = row_text r) rows.
Proof.
  intros Hrows. split; [|by eapply read_full_rows_texts].
  revert Hrows.
  unfold read_full_rows. destruct (wait_entries b); [|done]. intros [= <-].
  destruct (scroll_loop_spec py b stable_loops max_loops 0 ∅ 0 0) as [Hok _].
  { intros idx r. by rewrite lookup_empty. }
  rewrite (rows_of_index py) by done.
  apply StronglySorted_le_lt.
  - apply StronglySorted_merge_sort; apply _.
  - rewrite merge_sort_Permutation. apply NoDup_fst_map_to_list.
Qed.

(* A page with the two rows 2 and 1, in that order, and no speakers. *)
Lemma read_full_rows_sorted_witness :
  read_full_rows ascii_python
    (mkBrowser true
       (λ _, mkPage [lit "sub-entry-2"; lit "sub-entry-1"]
               (λ idx, Some [Some (lit " row " ++ str_int idx ++ lit " ")])
               (λ _, Some []) (λ _, Some []) (λ _, Some []))
       (λ _, false))
    5 2
  = Some [mkRow 1 [] [] (lit "row 1"); mkRow 2 [] [] (lit "row 2")] ∧
  StronglySorted N.lt [1; 2]%N.
Proof.
  assert (read_full_rows ascii_python
    (mkBrowser true
       (λ _, mkPage [lit "sub-entry-2"; lit "sub-entry-1"]
               (λ idx, Some [Some (lit " row " ++ str_int idx ++ lit " ")])
               (λ _, Some []) (λ _, Some []) (λ _, Some []))
       (λ _, false))
    5 2
  = Some [mkRow 1 [] [] (lit "row 1"); mkRow 2 [] [] (lit "row 2")]) as Hrows
    by (vm_compute; reflexivity).
  split; [exact Hrows|].
  exact (proj1 (read_full_rows_sorted _ _ _ _ _ Hrows)).
Defined.





(* ===================================================================== *)
(** * SharePointDownloader: rows_to_text *)
(* ===================================================================== *)

Lemma mapM_app_Some {A B} (f : A → option B) (xs ys : list A) :
  mapM f (xs ++ ys) = us ← mapM f xs; vs ← mapM f ys; Some (us ++ vs).
Proof.
  induction xs as [|x xs IH]; simpl.
  - by destruct (mapM f ys).
  - destruct (f x) as [u|]; simpl; [|done]. rewrite IH.
    destruct (mapM f xs) as [us|]; simpl; [|done].
    by destruct (mapM f ys).
Qed.

Lemma join_nil_inv sep pieces :
  Forall (λ piece, piece ≠ []) pieces → join sep pieces = [] → pieces = [].
Proof.
  destruct 1 as [|piece [|piece' pieces] Hpiece _]; [done|..]; simpl.
  - done.
  - by intros [? _]%app_eq_nil.
Qed.

Lemma join_app sep ps qs :
  Forall (λ piece, piece ≠ []) ps → Forall (λ piece, piece ≠ []) qs →
  join sep (ps ++ qs) =
    if decide (join sep ps = []) then join sep qs
    else if decide (join sep qs = []) then join sep ps
    else join sep ps ++ sep ++ join sep qs.
Proof.
  intros Hps Hqs. induction Hps as [|p ps Hp Hps IH]; [done|].
  assert (join sep (p :: ps) ≠ []) as Hne.
  { intros Hnil%join_nil_inv; [done|by constructor]. }
  rewrite decide_False by done.
  destruct ps as [|p' ps].
  - destruct qs as [|q qs]; [by rewrite decide_True|].
    rewrite decide_False; [done|].
    by intros Hnil%join_nil_inv.
  - change (join sep ((p :: p' :: ps) ++ qs))
      with (p ++ sep ++ join sep ((p' :: ps) ++ qs)).
    rewrite IH. rewrite decide_False.
    2:{ intros Hnil%join_nil_inv; [done|by inversion Hps; constructor]. }
    change (join sep (p :: p' :: ps)) with (p ++ sep ++ join sep (p' :: ps)).
    destruct (decide (join sep qs = [])); [done|].
    by rewrite <- !(assoc_L (++)).
Qed.

(** X18. rows_to_text of two lists of rows put end to end is the two texts
    joined by one newline, and just the other text when one of them is
    empty; it raises exactly when one of the two does.  So rows whose text is
    missing, empty or white space leave no blank line anywhere. *)
Theorem rows_to_text_app py rows1 rows2 :
  rows_to_text py (rows1 ++ rows2) =
    text1 ← rows_to_text py rows1;
    text2 ← rows_to_text py rows2;
    Some (if decide (text1 = []) then text2
          else if decide (text2 = []) then text1
          else text1 ++ [10%N] ++ text2).
Proof.
  unfold rows_to_text. rewrite mapM_app_Some.
  destruct (mapM (text_of py) rows1) as [us|]; simpl; [|done].
  destruct (mapM (text_of py) rows2) as [vs|]; simpl; [|done].
  f_equal. rewrite filter_app. apply join_app.
  - apply Forall_forall. by intros piece [? _]%list_elem_of_filter.
  - apply Forall_forall. by intros piece [? _]%list_elem_of_filter.
Qed.

Lemma text_of_row_json py r :
  text_of py (row_json r) =
    Some (if decide (row_text r = []) then [] else strip py (row_text r)).
Proof.
  unfold text_of, row_json.
  assert (member (lit "text")
            [(lit "index", JNumber (bool_decide (row_index r = 0%N))
                             (str_int (row_index r)));
             (lit "timestamp", JString (row_timestamp r));
             (lit "speaker", JString (row_speaker r));
             (lit "text", JString (row_text r))]
          = Some (JString (row_text r))) as -> by (vm_compute; reflexivity).
  unfold truthy. case_bool_decide; [by rewrite decide_False|by rewrite decide_True].
Qed.

Lemma rows_to_text_row_json py rows :
  Forall (λ r, row_text r ≠ [] ∧ strip py (row_text r) = row_text r) rows →
  rows_to_text py (row_json <$> rows) = Some (join [10%N] (row_text <$> rows)).
Proof.
  intros Hrows. unfold rows_to_text.
  assert (mapM (text_of py) (row_json <$> rows) = Some (row_text <$> rows)) as ->.
  { apply mapM_Some, Forall2_fmap, Forall_Forall2_diag.
    eapply Forall_impl; [done|]. intros r [Hne Hstrip]. cbv beta.
    by rewrite text_of_row_json, decide_False, Hstrip. }
  simpl. f_equal. f_equal.
  induction Hrows as [|r rows [Hne _] _ IH]; [done|].
  rewrite fmap_cons, filter_cons_True by done. by f_equal.
Qed.

(** X19. The rows read_full_rows returns, saved as json and read back, give
    under rows_to_text exactly their texts, one row after the other with a
    newline between two rows: no row is dropped and no text is changed. *)
Theorem transcript_text_of_read_rows py b max_loops stable_loops rows :
  read_full_rows py b max_loops stable_loops = Some rows →
  rows_to_text py (row_json <$> rows) = Some (join [10%N] (row_text <$> rows)).
Proof.
  intros Hrows. apply rows_to_text_row_json. by eapply read_full_rows_texts.
Qed.

(* Two rows, the second with white space around its text on the page. *)
Lemma transcript_text_of_read_rows_witness :
  rows_to_text ascii_python
    (row_json <$> [mkRow 1 [] [] (lit "one"); mkRow 2 [] [] (lit "two")])
  = Some (lit "one" ++ [10%N] ++ lit "two").
Proof.
  apply (transcript_text_of_read_rows ascii_python
    (mkBrowser true
       (λ _, mkPage [lit "sub-entry-1"; lit "sub-entry-2"]
               (λ idx, Some [Some (if decide (idx = 1%N) then lit "one"
                                   else lit "  two ")])
               (λ _, Some []) (λ _, Some []) (λ _, Some []))
       (λ _, false))
    3 1).
  vm_compute. reflexivity.
Defined.

(* ===================================================================== *)
(** * SharePointDownloader: ConvertSharePointJsonToMarkdown *)
(* ===================================================================== *)

Lemma convert_file_keeps py file_of p md file text :
  md !! file = Some text →
  (convert_file py file_of p md).1 !! file = Some text.
Proof.
  intros Hfile. unfold convert_file.
  destruct (read_json p) as [[| | | | |data]|]; try done.
  set (name := md_name py (stem p) data).
  destruct (md !! file_of name) as [old|] eqn:Hname; [done|].
  destruct (md_text py data) as [new|]; [|done].
  assert (file_of name ≠ file) as Hne by congruence.
  destruct (write_text p) as [|[part|]]; simpl; [| |done];
    by rewrite lookup_insert_ne.
Qed.

Lemma convert_files_keeps py file_of json_files md file text :
  md !! file = Some text →
  (convert_files py file_of json_files md).1 !! file = Some text.
Proof.
  revert md. induction json_files as [|p json_files IH]; intros md Hfile; [done|].
  simpl. pose proof (convert_file_keeps py file_of p md file text Hfile) as Hp.
  destruct (convert_file py file_of p md) as [md1 entry].
  specialize (IH md1 Hp).
  by destruct (convert_files py file_of json_files md1) as [md2 log].
Qed.

(** X20. ConvertSharePointJsonToMarkdown never touches a markdown file that
    is there when it starts: whatever the json files hold and whatever
    fails, the file has the same contents when the function returns. *)
Theorem convert_keeps_existing_md py file_of json_files md file text :
  md !! file = Some text →
  (ConvertSharePointJsonToMarkdown py file_of json_files md).1 !! file
    = Some text.
Proof.
  intros Hfile. unfold ConvertSharePointJsonToMarkdown.
  destruct json_files as [|p json_files]; [done|].
  by apply convert_files_keeps.
Qed.

Lemma convert_files_saved py file_of json_files md md' log :
  convert_files py file_of json_files md = (md', log) →
  NoDup (saved_files file_of log) ∧
  ∀ name text, SavedMd name text ∈ log →
               md !! file_of name = None ∧ md' !! file_of name = Some text.
Proof.
  revert md md' log.
  induction json_files as [|p json_files IH]; intros md md' log; simpl.
  { intros [= <- <-]. split; [constructor|]. by intros ?? ?%elem_of_nil. }
  destruct (convert_file py file_of p md) as [md1 entry] eqn:Hp.
  destruct (convert_files py file_of json_files md1) as [md2 log2] eqn:Hrest.
  intros [= <- <-]. destruct (IH _ _ _ Hrest) as [Hnd Hsaved].
  assert (∀ file, md1 !! file = None → md !! file = None) as Hback.
  { intros file Hnone. destruct (md !! file) as [old|] eqn:Hold; [|done].
    pose proof (convert_file_keeps py file_of p md file old Hold) as Hkeep.
    rewrite Hp in Hkeep. simpl in Hkeep. congruence. }
  assert (∀ file text, md1 !! file = Some text → md2 !! file = Some text)
    as Hforth.
  { intros file text Hfile.
    pose proof (convert_files_keeps py file_of json_files md1 file text Hfile)
      as Hkeep. by rewrite Hrest in Hkeep. }
  assert (∀ name text, entry = SavedMd name text →
                       md !! file_of name = None ∧
                       md1 !! file_of name = Some text) as Hentry.
  { intros name text ->. revert Hp. unfold convert_file.
    destruct (read_json p) as [[| | | | |data]|]; try done.
    destruct (md !! file_of (md_name py (stem p) data)) eqn:Hname; [done|].
    destruct (md_text py data) as [new|]; [|done].
    destruct (write_text p) as [|[part|]]; [|done..].
    intros [= <- <- <-]. by rewrite lookup_insert_eq. }
  split.
  - unfold saved_files in *. destruct entry as [|name text|name|p_stem]; simpl;
      try done.
    constructor; [|done].
    intros (entry' & Hin & Hsome)%list_elem_of_omap.
    destruct entry' as [|name' text'|name'|p_stem']; try done.
    injection Hsome as Heq.
    destruct (Hsaved name' text' Hin) as [Hnone _].
    destruct (Hentry name text eq_refl) as [_ Hsome]. congruence.
  - intros name text [Heq|Hin]%elem_of_cons.
    + destruct (Hentry name text (eq_sym Heq)) as [Hnone Hsome].
      split; [done|]. by apply Hforth.
    + destruct (Hsaved name text Hin) as [Hnone Hsome].
      split; [by apply Hback|done].
Qed.

(* The file a.md is there; a.json would give another text for it. *)
Lemma convert_keeps_existing_md_witness :
  (ConvertSharePointJsonToMarkdown ascii_python id
     [mkJsonFile (lit "a")
        (Some (JObject [(lit "rows",
                         JArray [JObject [(lit "text", JString (lit "new"))]])]))
        Written]
     {[ lit "a" := lit "old" ]}).1 !! lit "a" = Some (lit "old").
Proof.
  apply convert_keeps_existing_md. vm_compute. reflexivity.
Defined.

(** X21. What ConvertSharePointJsonToMarkdown logs as saved is true and
    happens once: no file is saved twice in a run, every file saved was
    missing when the run started, and it still has the text that was saved
    when the run ends. *)
Theorem convert_saves_each_file_once py file_of json_files md md' log :
  ConvertSharePointJsonToMarkdown py file_of json_files md = (md', log) →
  NoDup (saved_files file_of log) ∧
  ∀ name text, SavedMd name text ∈ log →
               md !! file_of name = None ∧ md' !! file_of name = Some text.
Proof.
  unfold ConvertSharePointJsonToMarkdown.
  destruct json_files as [|p json_files]; [|apply convert_files_saved].
  intros [= <- <-]. split; [constructor|].
  by intros name text [=]%list_elem_of_singleton.
Qed.

(* Two json files that carry the same name: the second one is skipped. *)
Lemma convert_saves_each_file_once_witness :
  NoDup (saved_files id [SavedMd (lit "a") (lit "hi"); SkippedMd (lit "a")]).
Proof.
  refine (proj1 (convert_saves_each_file_once ascii_python id
    [mkJsonFile (lit "a")
       (Some (JObject [(lit "rows",
                        JArray [JObject [(lit "text", JString (lit " hi "))]])]))
       Written;
     mkJsonFile (lit "b")
       (Some (JObject [(lit "name", JString (lit "a")); (lit "rows", JNull)]))
       Written]
    ∅ {[ lit "a" := lit "hi" ]} _ _)).
  vm_compute. reflexivity.
Defined.

Lemma convert_files_converted py file_of json_files md md' log :
  convert_files py file_of json_files md = (md', log) →
  Forall converted log →
  Forall2 (λ p entry, ∃ data,
             read_json p = Some (JObject data) ∧
             is_Some (md' !! file_of (md_name py (stem p) data)) ∧
             as_skip entry = SkippedMd (md_name py (stem p) data))
          json_files log.
Proof.
  revert md md' log.
  induction json_files as [|p json_files IH]; intros md md' log; simpl.
  { intros [= <- <-] _. constructor. }
  destruct (convert_file py file_of p md) as [md1 entry] eqn:Hp.
  destruct (convert_files py file_of json_files md1) as [md2 log2] eqn:Hrest.
  intros [= <- <-] [Hentry Hlog]%Forall_cons.
  constructor; [|by eapply IH].
  revert Hp. unfold convert_file.
  destruct (read_json p) as [[| | | | |data]|];
    try (intros [= <- <-]; by destruct Hentry).
  intros Hp. exists data. split; [done|].
  assert (is_Some (md1 !! file_of (md_name py (stem p) data)) ∧
          as_skip entry = SkippedMd (md_name py (stem p) data)) as [[text Hin] ?].
  { revert Hp.
    destruct (md !! file_of (md_name py (stem p) data)) as [old|] eqn:Hname.
    { intros [= <- <-]. eauto. }
    destruct (md_text py data) as [new|];
      [|intros [= <- <-]; by destruct Hentry].
    destruct (write_text p) as [|[part|]];
      try (intros [= <- <-]; by destruct Hentry).
    intros [= <- <-]. rewrite lookup_insert_eq. eauto. }
  split; [|done]. exists text.
  pose proof (convert_files_keeps py file_of json_files md1 _ _ Hin) as Hkeep.
  by rewrite Hrest in Hkeep.
Qed.

Lemma convert_files_skips py file_of json_files md log :
  Forall2 (λ p entry, ∃ data,
             read_json p = Some (JObject data) ∧
             is_Some (md !! file_of (md_name py (stem p) data)) ∧
             as_skip entry = SkippedMd (md_name py (stem p) data))
          json_files log →
  convert_files py file_of json_files md = (md, as_skip <$> log).
Proof.
  induction 1 as [|p entry json_files log (data & Hread & [old Hin] & Hskip) _ IH];
    [done|].
  simpl. unfold convert_file. rewrite Hread, Hin, IH. by rewrite Hskip.
Qed.

(** X22. Running ConvertSharePointJsonToMarkdown again after a run in which
    every json file was saved or skipped changes no markdown file and saves
    nothing: the second run skips every file, under the name the first run
    logged for it, whatever writing would do this time. *)
Theorem convert_again_only_skips py file_of json_files json_files' md md' log :
  ConvertSharePointJsonToMarkdown py file_of json_files md = (md', log) →
  Forall converted log →
  Forall2 same_json json_files json_files' →
  ConvertSharePointJsonToMarkdown py file_of json_files' md'
    = (md', as_skip <$> log).
Proof.
  unfold ConvertSharePointJsonToMarkdown. intros Hrun Hlog Hsame.
  destruct Hsame as [|p p' json_files json_files' Hp Hsame].
  { injection Hrun as <- <-. by apply Forall_singleton in Hlog. }
  apply convert_files_skips.
  pose proof (convert_files_converted _ _ _ _ _ _ Hrun Hlog) as Hfirst.
  assert (Forall2 same_json (p :: json_files) (p' :: json_files')) as Hall
    by by constructor.
  clear -Hfirst Hall. revert Hfirst. generalize log. clear log.
  induction Hall as [|q q' qs qs' [Hstem Hread] _ IH]; intros log Hfirst.
  { apply Forall2_nil_inv_l in Hfirst as ->. constructor. }
  apply Forall2_cons_inv_l in Hfirst
    as (entry & log' & (data & Hdata & Hin & Hskip) & Hfirst & ->).
  constructor; [|by apply IH].
  exists data. by rewrite <- Hstem, <- Hread.
Qed.

(* A first run saves a.md; in the second run writing would fail. *)
Lemma convert_again_only_skips_witness :
  ConvertSharePointJsonToMarkdown ascii_python id
    [mkJsonFile (lit "a") (Some (JObject [])) (WriteFailed None)]
    {[ lit "a" := [] ]}
  = ({[ lit "a" := [] ]}, [SkippedMd (lit "a")]).
Proof.
  apply (convert_again_only_skips ascii_python id
           [mkJsonFile (lit "a") (Some (JObject [])) Written] _
           ∅ _ [SavedMd (lit "a") []]).
  - vm_compute. reflexivity.
  - by repeat constructor.
  - by repeat constructor.
Defined.

Lemma md_name_transcript_json py p_stem name url rows :
  PythonFacts py →
  md_name py p_stem [(lit "name", JString (_sanitize_name py name));
                     (lit "url", JString url);
                     (lit "rows", JArray (row_json <$> rows))]
  = _sanitize_name py name.
Proof.
  intros Hpy. unfold md_name.
  assert (member (lit "name")
            [(lit "name", JString (_sanitize_name py name));
             (lit "url", JString url);
             (lit "rows", JArray (row_json <$> rows))]
          = Some (JString (_sanitize_name py name))) as -> by done.
  destruct (sanitize_name_kept py name Hpy) as (Hne & _ & _).
  unfold truthy. rewrite bool_decide_true by done. simpl.
  by apply sanitize_name_fixed.
Qed.

Lemma md_text_transcript_json py name url rows :
  Forall (λ r, row_text r ≠ [] ∧ strip py (row_text r) = row_text r) rows →
  md_text py [(lit "name", JString name); (lit "url", JString url);
              (lit "rows", JArray (row_json <$> rows))]
  = Some (join [10%N] (row_text <$> rows)).
Proof.
  intros Hrows. unfold md_text.
  assert (member (lit "rows")
            [(lit "name", JString name); (lit "url", JString url);
             (lit "rows", JArray (row_json <$> rows))]
          = Some (JArray (row_json <$> rows))) as -> by (vm_compute; reflexivity).
  unfold truthy. case_bool_decide as Hnil.
  - by apply rows_to_text_row_json.
  - destruct rows; [by apply (rows_to_text_row_json py [])|]. by rewrite fmap_cons in Hnil.
Qed.

(** X23. From the page to the markdown: when the json of a job, saved by
    GetTranscriptDataFromSharedPoint under the sanitized name of the job
    with the rows read_full_rows returned, is converted and no markdown of
    that name is there, the markdown is saved under the same name and its
    text is the texts of the rows, one per line, in the order of the rows. *)
Theorem saved_transcript_converts py file_of p md b max_loops stable_loops
    rows name url :
  PythonFacts py →
  read_full_rows py b max_loops stable_loops = Some rows →
  read_json p = Some (transcript_json (_sanitize_name py name) url rows) →
  md !! file_of (_sanitize_name py name) = None →
  write_text p = Written →
  convert_file py file_of p md =
    (<[file_of (_sanitize_name py name) := join [10%N] (row_text <$> rows)]> md,
     SavedMd (_sanitize_name py name) (join [10%N] (row_text <$> rows))).
Proof.
  intros Hpy Hrows Hread Hnew Hwrite. unfold convert_file, transcript_json in *.
  rewrite Hread, md_name_transcript_json, Hnew by done.
  rewrite md_text_transcript_json by (by eapply read_full_rows_texts).
  by rewrite Hwrite.
Qed.

Lemma saved_transcript_converts_witness :
  convert_file ascii_python id
    (mkJsonFile (lit "x")
       (Some (transcript_json (_sanitize_name ascii_python (Some (lit "Lesson 1")))
                (lit "https://host/v")
                [mkRow 1 [] [] (lit "one"); mkRow 2 [] [] (lit "two")]))
       Written) ∅
  = ({[ lit "Lesson_1" := lit "one" ++ [10%N] ++ lit "two" ]},
     SavedMd (lit "Lesson_1") (lit "one" ++ [10%N] ++ lit "two")).
Proof.
  rewrite (saved_transcript_converts ascii_python id _ ∅
    (mkBrowser true
       (λ _, mkPage [lit "sub-entry-1"; lit "sub-entry-2"]
               (λ idx, Some [Some (if decide (idx = 1%N) then lit "one"
                                   else lit "  two ")])
               (λ _, Some []) (λ _, Some []) (λ _, Some []))
       (λ _, false))
    3 1 [mkRow 1 [] [] (lit "one"); mkRow 2 [] [] (lit "two")]
    (Some (lit "Lesson 1")) (lit "https://host/v")).
  - vm_compute. reflexivity.
  - apply ascii_python_facts.
  - vm_compute. reflexivity.
  - reflexivity.
  - vm_compute. reflexivity.
  - reflexivity.
Defined.

(* ===================================================================== *)
(** * SharePointDownloader: GetTranscriptDataFromSharedPoint *)
(* ===================================================================== *)

Lemma saved_names_app acts acts' :
  saved_names (acts ++ acts') = saved_names acts ++ saved_names acts'.
Proof. apply omap_app. Qed.

Lemma opened_pages_app acts acts' :
  opened_pages (acts ++ acts') = opened_pages acts ++ opened_pages acts'.
Proof. apply omap_app. Qed.

Lemma visit_job_saved py lib file_of skip visit job r :
  ∃ s, saved_names (actions (run_of (visit_job py lib file_of skip visit job r)))
       = saved_names (actions r) ++ s ∧
       s `sublist_of` [_sanitize_name py (Some (job_name job))].
Proof.
  unfold visit_job.
  destruct (skip && bool_decide _).
  { exists []. simpl. rewrite saved_names_app. split; [done|apply sublist_nil_l]. }
  destruct (opening (visit job)) as [e|].
  { exists []. simpl. rewrite saved_names_app. split; [done|apply sublist_nil_l]. }
  destruct (read_full_rows _ _ _ _) as [rows|].
  2:{ exists []. simpl. rewrite saved_names_app. split; [done|apply sublist_nil_l]. }
  destruct (write_json (visit job)) as [|[left_behind|]].
  - eexists. simpl. rewrite !saved_names_app. simpl. rewrite app_nil_r.
    split; [done|]. done.
  - exists []. simpl. rewrite saved_names_app. split; [done|apply sublist_nil_l].
  - exists []. simpl. rewrite saved_names_app. split; [done|apply sublist_nil_l].
Qed.

Lemma get_loop_saved py lib file_of skip visit jobs r :
  ∃ s, saved_names (actions (run_of
         (for_each (visit_job py lib file_of skip visit) jobs r)))
       = saved_names (actions r) ++ s ∧
       s `sublist_of` ((λ job, _sanitize_name py (Some (job_name job))) <$> jobs).
Proof.
  revert r. induction jobs as [|job jobs IH]; intros r.
  { exists []. simpl. by rewrite app_nil_r. }
  destruct (visit_job_saved py lib file_of skip visit job r) as (s & Hs & Hsub).
  cbn [for_each].
  destruct (visit_job py lib file_of skip visit job r) as [[e r1]|r1].
  - exists s. split; [done|]. rewrite fmap_cons.
    etrans; [done|]. by apply sublist_skip, sublist_nil_l.
  - destruct (IH r1) as (s' & Hs' & Hsub'). exists (s ++ s').
    simpl in Hs. rewrite Hs', Hs, (assoc_L (++)). split; [done|].
    rewrite fmap_cons. change (?x :: ?l) with ([x] ++ l).
    by apply sublist_app.
Qed.

(** X24. GetTranscriptDataFromSharedPoint saves at most one json per job,
    under the name the job was loaded with, in the order of the jobs: no
    name is saved twice in a run, with or without skip_if_exists. *)
Theorem json_saved_once_per_job py lib file_of skip_if_exists setup candidates
    visit folder jobs res r :
  PythonFacts py →
  load_sharepoint_jobs py candidates = inr jobs →
  GetTranscriptDataFromSharedPoint py lib file_of skip_if_exists setup
    candidates visit folder = (res, r) →
  saved_names (actions r) `sublist_of` (job_name <$> jobs) ∧
  NoDup (saved_names (actions r)).
Proof.
  intros Hpy Hload Hrun.
  assert (saved_names (actions r) `sublist_of` (job_name <$> jobs)) as Hsub.
  { revert Hrun. unfold GetTranscriptDataFromSharedPoint. rewrite Hload.
    destruct (mkdir_ok setup); [|intros [= <- <-]; apply sublist_nil_l].
    destruct (driver_ok setup); [|intros [= <- <-]; apply sublist_nil_l].
    destruct (get_loop_saved py lib file_of skip_if_exists visit jobs
                (mkRun folder [])) as (s & Hs & Hsub).
    assert ((λ job, _sanitize_name py (Some (job_name job))) <$> jobs
            = job_name <$> jobs) as Hnames.
    { apply Forall_fmap_ext. by eapply load_names_fixed. }
    rewrite Hnames in Hsub. simpl in Hs.
    destruct (for_each _ jobs _) as [[[] r1]|r1]; intros [= <- <-]; simpl;
      rewrite saved_names_app; simpl in *; by rewrite app_nil_r, Hs. }
  split; [done|].
  eapply sublist_NoDup; [|done]. by eapply load_names_NoDup.
Qed.

(* Two jobs, no json yet, nothing fails: both are saved, once each. *)
Lemma json_saved_once_per_job_witness :
  saved_names (actions (GetTranscriptDataFromSharedPoint ascii_python
    sample_urllib id false (mkSetup true true) sample_candidates sample_visit
    ∅).2) = [lit "lesson_1"; lit "lesson_2"] ∧
  NoDup (saved_names (actions (GetTranscriptDataFromSharedPoint ascii_python
    sample_urllib id false (mkSetup true true) sample_candidates sample_visit
    ∅).2)).
Proof.
  split; [vm_compute; reflexivity|].
  refine (proj2 (json_saved_once_per_job ascii_python sample_urllib id false
    (mkSetup true true) sample_candidates sample_visit ∅ sample_jobs Finished _
    ascii_python_facts _ _)).
  - vm_compute. reflexivity.
  - vm_compute. reflexivity.
Defined.

Lemma visit_job_keeps py lib file_of visit job r file contents :
  json_folder r !! file = Some contents →
  json_folder (run_of (visit_job py lib file_of true visit job r)) !! file
    = Some contents.
Proof.
  intros Hfile. unfold visit_job. cbn [andb].
  case_bool_decide as Hname; [done|].
  assert (file_of (_sanitize_name py (Some (job_name job))) ≠ file) as Hne.
  { intros Heq. apply Hname. rewrite Heq. eauto. }
  destruct (opening (visit job)) as [e|]; [done|].
  destruct (read_full_rows _ _ _ _) as [rows|]; [|done].
  destruct (write_json (visit job)) as [|[left_behind|]]; simpl; [| |done];
    by rewrite lookup_insert_ne.
Qed.

Lemma get_loop_keeps py lib file_of visit jobs r file contents :
  json_folder r !! file = Some contents →
  json_folder (run_of (for_each (visit_job py lib file_of true visit) jobs r))
    !! file = Some contents.
Proof.
  revert r. induction jobs as [|job jobs IH]; intros r Hfile; [done|].
  cbn [for_each].
  pose proof (visit_job_keeps py lib file_of visit job r file contents Hfile)
    as Hjob.
  destruct (visit_job py lib file_of true visit job r) as [[e r1]|r1]; [done|].
  by apply IH.
Qed.

(** X25. With skip_if_exists (the default), GetTranscriptDataFromSharedPoint
    never touches a json file that is there when it starts: whatever the
    browser does and whatever fails, the file has the same contents when
    the function returns or raises. *)
Theorem skip_keeps_existing_json py lib file_of setup candidates visit folder
    res r file contents :
  GetTranscriptDataFromSharedPoint py lib file_of true setup candidates visit
    folder = (res, r) →
  folder !! file = Some contents →
  json_folder r !! file = Some contents.
Proof.
  unfold GetTranscriptDataFromSharedPoint. intros Hrun Hfile.
  destruct (mkdir_ok setup); [|by injection Hrun as <- <-].
  destruct (load_sharepoint_jobs py candidates) as [e|jobs];
    [by injection Hrun as <- <-|].
  destruct (driver_ok setup); [|by injection Hrun as <- <-].
  pose proof (get_loop_keeps py lib file_of visit jobs (mkRun folder [])
                file contents Hfile) as Hloop.
  destruct (for_each _ jobs _) as [[[] r1]|r1]; by injection Hrun as <- <-.
Qed.

(* The json of the first job is there, as an empty file: it stays so. *)
Lemma skip_keeps_existing_json_witness :
  json_folder (GetTranscriptDataFromSharedPoint ascii_python sample_urllib id
    true (mkSetup true true) sample_candidates sample_visit
    {[ lit "lesson_1" := Blank ]}).2 !! lit "lesson_1" = Some Blank.
Proof.
  refine (skip_keeps_existing_json ascii_python sample_urllib id
    (mkSetup true true) sample_candidates sample_visit
    {[ lit "lesson_1" := Blank ]} Finished _ (lit "lesson_1") Blank _ _).
  - vm_compute. reflexivity.
  - vm_compute. reflexivity.
Defined.

Lemma visit_job_grows py lib file_of skip visit job r file :
  is_Some (json_folder r !! file) →
  is_Some (json_folder (run_of (visit_job py lib file_of skip visit job r))
             !! file).
Proof.
  intros Hfile. unfold visit_job.
  destruct (skip && bool_decide _); [done|].
  destruct (opening (visit job)) as [e|]; [done|].
  destruct (read_full_rows _ _ _ _) as [rows|]; [|done].
  destruct (write_json (visit job)) as [|[left_behind|]]; simpl; [| |done];
    rewrite lookup_insert_is_Some; destruct (decide (file_of
      (_sanitize_name py (Some (job_name job))) = file)); auto.
Qed.

Lemma visit_job_done py lib file_of skip visit job r r1 :
  visit_job py lib file_of skip visit job r = inr r1 →
  is_Some (json_folder r1 !! file_of (_sanitize_name py (Some (job_name job)))).
Proof.
  unfold visit_job.
  destruct (skip && bool_decide _) eqn:Hskip.
  { intros [= <-]. simpl. apply andb_true_iff in Hskip as [_ Hin].
    by apply bool_decide_eq_true in Hin. }
  destruct (opening (visit job)) as [e|]; [done|].
  destruct (read_full_rows _ _ _ _) as [rows|]; [|done].
  destruct (write_json (visit job)) as [|[left_behind|]]; [|done..].
  intros [= <-]. simpl. rewrite lookup_insert_eq. eauto.
Qed.

Lemma get_loop_done py lib file_of skip visit jobs r r' :
  for_each (visit_job py lib file_of skip visit) jobs r = inr r' →
  (∀ file, is_Some (json_folder r !! file) → is_Some (json_folder r' !! file)) ∧
  ∀ job, job ∈ jobs →
         is_Some (json_folder r'
                    !! file_of (_sanitize_name py (Some (job_name job)))).
Proof.
  revert r. induction jobs as [|job jobs IH]; intros r; cbn [for_each].
  { intros [= <-]. split; [done|]. by intros job ?%elem_of_nil. }
  pose proof (visit_job_grows py lib file_of skip visit job r) as Hgrow.
  destruct (visit_job py lib file_of skip visit job r) as [[e r1]|r1] eqn:Hjob;
    [done|].
  intros [Hmono Hjobs]%IH. split.
  - intros file Hfile. by apply Hmono, Hgrow.
  - intros job' [->|Hin]%elem_of_cons; [|by apply Hjobs].
    by eapply Hmono, visit_job_done.
Qed.

(** X26. When GetTranscriptDataFromSharedPoint returns without an
    exception, every job that was loaded has its json file in the output
    folder, whether it was there before or was saved in this run. *)
Theorem finished_run_has_every_json py lib file_of skip_if_exists setup
    candidates visit folder jobs r :
  PythonFacts py →
  load_sharepoint_jobs py candidates = inr jobs →
  GetTranscriptDataFromSharedPoint py lib file_of skip_if_exists setup
    candidates visit folder = (Finished, r) →
  ∀ job, job ∈ jobs → is_Some (json_folder r !! file_of (job_name job)).
Proof.
  intros Hpy Hload. unfold GetTranscriptDataFromSharedPoint. rewrite Hload.
  destruct (mkdir_ok setup); [|done]. destruct (driver_ok setup); [|done].
  destruct (for_each _ jobs _) as [[[] r1]|r1] eqn:Hloop; [done..|].
  intros [= <-] job Hjob. simpl.
  apply get_loop_done in Hloop as [_ Hjobs].
  pose proof (load_names_fixed py candidates jobs Hpy Hload) as Hfixed.
  rewrite Forall_forall in Hfixed. rewrite <- (Hfixed job Hjob). by apply Hjobs.
Qed.

Lemma finished_run_has_every_json_witness :
  is_Some (json_folder (GetTranscriptDataFromSharedPoint ascii_python
    sample_urllib id true (mkSetup true true) sample_candidates sample_visit
    {[ lit "lesson_1" := Blank ]}).2 !! lit "lesson_2").
Proof.
  refine (finished_run_has_every_json ascii_python sample_urllib id true
    (mkSetup true true) sample_candidates sample_visit
    {[ lit "lesson_1" := Blank ]} sample_jobs _ ascii_python_facts _ _
    (mkJob (lit "lesson_2") (lit "u2")) _).
  - vm_compute. reflexivity.
  - vm_compute. reflexivity.
  - do 2 constructor.
Defined.

Lemma length_filter_impl {A} (P Q : A → Prop) `{!∀ x, Decision (P x)}
    `{!∀ x, Decision (Q x)} (l : list A) :
  (∀ x, P x → Q x) → length (filter P l) ≤ length (filter Q l).
Proof.
  intros HPQ. induction l as [|x l IH]; [done|].
  rewrite !filter_cons. destruct (decide (P x)) as [HP|HP].
  - rewrite decide_True by auto. simpl. lia.
  - destruct (decide (Q x)); simpl; lia.
Qed.

Lemma visit_job_opened py lib file_of visit job r :
  opened_pages (actions (run_of (visit_job py lib file_of true visit job r)))
    = opened_pages (actions r) ∨
  (json_folder r !! file_of (_sanitize_name py (Some (job_name job))) = None ∧
   length (opened_pages (actions
             (run_of (visit_job py lib file_of true visit job r))))
     = S (length (opened_pages (actions r)))).
Proof.
  unfold visit_job. cbn [andb].
  case_bool_decide as Hname.
  { left. simpl. by rewrite opened_pages_app, app_nil_r. }
  right. split.
  { destruct (json_folder r !! _) eqn:Hfile; [|done]. destruct Hname. eauto. }
  destruct (opening (visit job)) as [e|].
  { simpl. rewrite opened_pages_app, length_app. simpl. lia. }
  destruct (read_full_rows _ _ _ _) as [rows|].
  2:{ simpl. rewrite opened_pages_app, length_app. simpl. lia. }
  destruct (write_json (visit job)) as [|[left_behind|]]; simpl;
    rewrite ?opened_pages_app, ?length_app; simpl; lia.
Qed.

Lemma get_loop_opened py lib file_of visit jobs r :
  Forall (λ job, _sanitize_name py (Some (job_name job)) = job_name job) jobs →
  length (opened_pages (actions (run_of
            (for_each (visit_job py lib file_of true visit) jobs r))))
  ≤ length (opened_pages (actions r))
    + length (without_json file_of (json_folder r) jobs).
Proof.
  intros Hjobs. revert r.
  induction Hjobs as [|job jobs Hjob Hjobs IH]; intros r; [simpl; lia|].
  cbn [for_each]. unfold without_json in *. rewrite filter_cons.
  pose proof (visit_job_opened py lib file_of visit job r) as Hopened.
  pose proof (visit_job_grows py lib file_of true visit job r) as Hgrow.
  rewrite Hjob in Hopened.
  destruct (visit_job py lib file_of true visit job r) as [[e r1]|r1].
  - simpl in *. destruct Hopened as [->|[Hnone ->]]; [lia|].
    rewrite decide_True by done. simpl. lia.
  - simpl in *. specialize (IH r1).
    assert (length (filter (λ job, json_folder r1 !! file_of (job_name job) = None)
                      jobs)
            ≤ length (filter (λ job, json_folder r !! file_of (job_name job) = None)
                        jobs)) as Hle.
    { apply length_filter_impl. intros job' Hnone.
      destruct (json_folder r !! file_of (job_name job')) eqn:Hfile; [|done].
      destruct (Hgrow (file_of (job_name job'))) as [? Hsome]; [eauto|].
      congruence. }
    destruct Hopened as [Heq|[Hnone Heq]].
    + rewrite Heq in IH. destruct (decide _); simpl; lia.
    + rewrite Heq in IH. rewrite decide_True by done. simpl. lia.
Qed.

(** X27. With skip_if_exists, GetTranscriptDataFromSharedPoint opens at
    most as many pages as there are jobs without a json file when it
    starts: a job whose json exists costs no visit, and no job is visited
    twice. *)
Theorem opens_only_jobs_without_json py lib file_of setup candidates visit
    folder jobs res r :
  PythonFacts py →
  load_sharepoint_jobs py candidates = inr jobs →
  GetTranscriptDataFromSharedPoint py lib file_of true setup candidates visit
    folder = (res, r) →
  length (opened_pages (actions r)) ≤ length (without_json file_of folder jobs).
Proof.
  intros Hpy Hload. unfold GetTranscriptDataFromSharedPoint. rewrite Hload.
  destruct (mkdir_ok setup); [|intros [= <- <-]; simpl; lia].
  destruct (driver_ok setup); [|intros [= <- <-]; simpl; lia].
  pose proof (get_loop_opened py lib file_of visit jobs (mkRun folder [])
                (load_names_fixed py candidates jobs Hpy Hload)) as Hloop.
  destruct (for_each _ jobs _) as [[[] r1]|r1]; intros [= <- <-]; simpl in *;
    rewrite opened_pages_app, length_app; simpl; lia.
Qed.

(* Of the two jobs the first has its json: one page is opened. *)
Lemma opens_only_jobs_without_json_witness :
  length (without_json id {[ lit "lesson_1" := Blank ]} sample_jobs) = 1 ∧
  length (opened_pages (actions (GetTranscriptDataFromSharedPoint ascii_python
    sample_urllib id true (mkSetup true true) sample_candidates sample_visit
    {[ lit "lesson_1" := Blank ]}).2))
  ≤ length (without_json id {[ lit "lesson_1" := Blank ]} sample_jobs).
Proof.
  split; [vm_compute; reflexivity|].
  refine (opens_only_jobs_without_json ascii_python sample_urllib id
    (mkSetup true true) sample_candidates sample_visit
    {[ lit "lesson_1" := Blank ]} sample_jobs Finished _
    ascii_python_facts _ _).
  - vm_compute. reflexivity.
  - vm_compute. reflexivity.
Defined.
